(** * Trace-session context of the OpenClaw observability plugin

    Shallow embedding of [src/src/hooks.ts] (the lifecycle hooks and the
    periodic cleanup) and [src/src/diagnostics.ts] (the [model.usage]
    listener, [getPendingUsage] and [enrichSpanWithUsage], and the lazy
    SDK loader with [hasDiagnosticsSupport] and [checkDiagnosticsSupport]).

    Modelling choices:
    - hook payloads are typed [any] in the source: they are JavaScript
      values [jsv]; the diagnostic event builds a [PendingUsageData],
      whose TypeScript interface types its fields: it is a record here;
    - JavaScript numbers are integers [Z] (token counts, milliseconds; the
      USD cost is only compared with zero and copied, so it is an integer
      as well);
    - the three module-level [Map]s are association lists in insertion
      order, as a JavaScript [Map] iterates;
    - the OpenTelemetry tracer and meter are external: every call to them
      is appended to a call log ([tlog] for spans, [mlog] for metrics);
      a span is the number returned by its [startSpan] call, a propagation
      context is the span it carries ([None]: [context.active()], which
      carries no span in a hook);
    - logger calls have no effect on the state and are left out;
    - a character of a [string] is one UTF-16 code unit (those below 256
      are the ones written here);
    - a thrown JavaScript exception is the [Exn] outcome of the monad. *)

From Stdlib Require Import String Ascii List ZArith Bool Lia.
Import ListNotations.
Open Scope string_scope.
Open Scope Z_scope.
Set Warnings "-register-all -abstract-large-number".

(** ** JavaScript values *)

Inductive jsv : Type :=
| JUndef
| JNull
| JBool (b : bool)
| JNum (z : Z)
| JStr (s : string)
| JArr (l : list jsv)
| JObj (fs : list (string * jsv)).

(** Truthiness, as used by [if (x)], [x || y] and [x && y]. *)
Definition truthy (v : jsv) : bool :=
  match v with
  | JUndef | JNull => false
  | JBool b => b
  | JNum z => negb (z =? 0)
  | JStr s => negb (String.eqb s "")
  | JArr _ | JObj _ => true
  end.

(** [a || b] *)
Definition js_or (a b : jsv) : jsv := if truthy a then a else b.

Fixpoint assoc_str (k : string) (fs : list (string * jsv)) : jsv :=
  match fs with
  | [] => JUndef
  | (k', v) :: fs' => if String.eqb k k' then v else assoc_str k fs'
  end.

(** Property read [v.k] on a value that is not [null] or [undefined]; an
    absent property is [undefined]. *)
Definition get (v : jsv) (k : string) : jsv :=
  match v with
  | JObj fs => assoc_str k fs
  | JArr l => if String.eqb k "length" then JNum (Z.of_nat (length l)) else JUndef
  | JStr s => if String.eqb k "length" then JNum (Z.of_nat (String.length s)) else JUndef
  | _ => JUndef
  end.

(** Optional chaining [v?.k]. *)
Definition opt_get (v : jsv) (k : string) : jsv :=
  match v with
  | JUndef | JNull => JUndef
  | _ => get v k
  end.

(** Strict equality [===] against a string literal. *)
Definition is_str (v : jsv) (s : string) : bool :=
  match v with JStr s' => String.eqb s' s | _ => false end.

Definition is_true (v : jsv) : bool :=
  match v with JBool true => true | _ => false end.

Definition is_nullish (v : jsv) : bool :=
  match v with JUndef | JNull => true | _ => false end.

(** Key equality of a JavaScript [Map] (SameValueZero); payload objects
    are compared by their contents. *)
Fixpoint jsv_eqb (a b : jsv) : bool :=
  match a, b with
  | JUndef, JUndef | JNull, JNull => true
  | JBool x, JBool y => Bool.eqb x y
  | JNum x, JNum y => Z.eqb x y
  | JStr x, JStr y => String.eqb x y
  | JArr xs, JArr ys =>
      (fix go (xs ys : list jsv) : bool :=
         match xs, ys with
         | [], [] => true
         | x :: xs', y :: ys' => jsv_eqb x y && go xs' ys'
         | _, _ => false
         end) xs ys
  | JObj xs, JObj ys =>
      (fix go (xs ys : list (string * jsv)) : bool :=
         match xs, ys with
         | [], [] => true
         | (kx, x) :: xs', (ky, y) :: ys' =>
             String.eqb kx ky && jsv_eqb x y && go xs' ys'
         | _, _ => false
         end) xs ys
  | _, _ => false
  end.

(** Decimal rendering of an integer, for [String(n)]. *)
Fixpoint digits (fuel : nat) (n : N) (acc : string) : string :=
  match fuel with
  | O => acc
  | S f =>
      let acc' := String (ascii_of_N (48 + N.modulo n 10)) acc in
      if (n <? 10)%N then acc' else digits f (N.div n 10) acc'
  end.

Definition Z_to_dec (z : Z) : string :=
  match z with
  | Z0 => "0"
  | Zpos p => digits (Pos.size_nat p) (Npos p) ""
  | Zneg p => "-" ++ digits (Pos.size_nat p) (Npos p) ""
  end.

Definition join (sep : string) (l : list string) : string :=
  match l with
  | [] => ""
  | x :: xs => fold_left (fun acc s => acc ++ sep ++ s) xs x
  end.

(** [String(v)] (and template-literal interpolation). *)
Fixpoint js_to_string (v : jsv) : string :=
  match v with
  | JUndef => "undefined"
  | JNull => "null"
  | JBool true => "true"
  | JBool false => "false"
  | JNum z => Z_to_dec z
  | JStr s => s
  | JArr l =>
      join "," (map (fun x => match x with
                              | JUndef | JNull => ""
                              | _ => js_to_string x
                              end) l)
  | JObj _ => "[object Object]"
  end.

(** [s.slice(0, n)]; lengths count characters of the string. *)
Definition slice0 (s : string) (n : nat) : string := substring 0 n s.

(** ** Maps: association lists in insertion order *)

Section Assoc.
Context {V : Type}.

Fixpoint lookup (k : jsv) (m : list (jsv * V)) : option V :=
  match m with
  | [] => None
  | (k', v) :: m' => if jsv_eqb k k' then Some v else lookup k m'
  end.

Fixpoint replace (k : jsv) (v : V) (m : list (jsv * V)) : list (jsv * V) :=
  match m with
  | [] => []
  | (k', v') :: m' =>
      if jsv_eqb k k' then (k', v) :: m' else (k', v') :: replace k v m'
  end.

(** [map.set(k, v)]: an existing key keeps its place. *)
Definition map_set (k : jsv) (v : V) (m : list (jsv * V)) : list (jsv * V) :=
  match lookup k m with
  | Some _ => replace k v m
  | None => m ++ [(k, v)]
  end.

(** [map.delete(k)] *)
Definition map_delete (k : jsv) (m : list (jsv * V)) : list (jsv * V) :=
  filter (fun p => negb (jsv_eqb k (fst p))) m.

End Assoc.

(** ** The data model *)

(** A span is identified by the number its [startSpan] call returned. *)
Definition span := nat.
Bind Scope nat_scope with span.

(** A propagation context: the span it carries, if any. *)
Definition pctx := option span.

(** [context.active()] inside a hook: no span. *)
Definition ctx_active : pctx := None.

Inductive span_kind := SERVER | INTERNAL.

Inductive status_code := STATUS_OK | STATUS_ERROR.

(** Calls to the tracer and to spans. *)
Inductive tcall : Type :=
| StartSpan (id : span) (name : string) (kind : span_kind)
            (attrs : list (string * jsv)) (parent : option span)
| SetAttr (id : span) (key : string) (val : jsv)
| SetStatus (id : span) (code : status_code) (msg : option string)
| EndSpan (id : span).

(** Calls to counters and histograms. *)
Inductive mcall : Type :=
| CounterAdd (name : string) (amount : Z) (attrs : list (string * jsv))
| HistRecord (name : string) (value : Z) (attrs : list (string * jsv)).

(** [SessionTraceContext] (hooks.ts).  [agentContext] is optional as in
    the interface, and carries the agent span when set. *)
Record SessionTraceContext : Type := mkSTC {
  rootSpan : span;
  rootContext : pctx;
  agentSpan : option span;
  agentContext : option pctx;
  startTime : Z
}.

(** [PendingUsageData] (diagnostics.ts). *)
Record Usage : Type := mkUsage {
  u_input : option Z;
  u_output : option Z;
  u_cacheRead : option Z;
  u_cacheWrite : option Z;
  u_total : option Z
}.

Definition empty_usage : Usage := mkUsage None None None None None.

Record ContextWindow : Type := mkCW {
  cw_limit : option Z;
  cw_used : option Z
}.

Record PendingUsageData : Type := mkPUD {
  pu_costUsd : option Z;
  pu_usage : Usage;
  pu_context : option ContextWindow;
  pu_durationMs : option Z;
  pu_provider : string;
  pu_model : string
}.

(** A [model.usage] diagnostic event, with the fields the listener reads. *)
Record DiagEvent : Type := mkDiag {
  de_type : string;
  de_sessionKey : option string;
  de_usage : option Usage;
  de_costUsd : option Z;
  de_context : option ContextWindow;
  de_durationMs : option Z;
  de_provider : option string;
  de_model : option string
}.

(** The module-level state of both files, the clock ([Date.now()]) and
    the logs of the calls made to the telemetry runtime. *)
Record state : Type := mkState {
  sessionContextMap : list (jsv * SessionTraceContext);
  activeAgentSpans : list (jsv * span);
  pendingUsageMap : list (jsv * PendingUsageData);
  next_span : nat;
  tlog : list tcall;
  mlog : list mcall;
  clock : Z
}.

Definition init_state : state := mkState [] [] [] 0 [] [] 0.

(** ** A state and exception monad *)

Inductive outcome (A : Type) : Type :=
| Ok (a : A)
| Exn (msg : string).
Arguments Ok {A} a.
Arguments Exn {A} msg.

Definition M (A : Type) : Type := state -> outcome A * state.

Definition ret {A} (a : A) : M A := fun st => (Ok a, st).

Definition bind {A B} (m : M A) (k : A -> M B) : M B :=
  fun st => match m st with
            | (Ok a, st') => k a st'
            | (Exn e, st') => (Exn e, st')
            end.

Notation "x <- m ;; k" := (bind m (fun x => k))
  (at level 61, m at next level, right associativity).
Notation "m ;; k" := (bind m (fun _ : unit => k))
  (at level 61, right associativity).

(** [throw new TypeError(...)] *)
Definition throw {A} (msg : string) : M A := fun st => (Exn msg, st).

(** [try { m } catch (err) { logger.warn?.(...) }] *)
Definition try_catch (m : M unit) : M unit :=
  fun st => match m st with
            | (Ok _, st') => (Ok tt, st')
            | (Exn _, st') => (Ok tt, st')
            end.

Definition when (b : bool) (m : M unit) : M unit := if b then m else ret tt.

Definition gets {A} (f : state -> A) : M A := fun st => (Ok (f st), st).

Definition modify (f : state -> state) : M unit := fun st => (Ok tt, f st).

Definition with_ctxmap m st :=
  mkState m (activeAgentSpans st) (pendingUsageMap st) (next_span st)
          (tlog st) (mlog st) (clock st).
Definition with_active m st :=
  mkState (sessionContextMap st) m (pendingUsageMap st) (next_span st)
          (tlog st) (mlog st) (clock st).
Definition with_pending m st :=
  mkState (sessionContextMap st) (activeAgentSpans st) m (next_span st)
          (tlog st) (mlog st) (clock st).
Definition log_t c st :=
  mkState (sessionContextMap st) (activeAgentSpans st) (pendingUsageMap st)
          (next_span st) (tlog st ++ [c]) (mlog st) (clock st).
Definition log_m c st :=
  mkState (sessionContextMap st) (activeAgentSpans st) (pendingUsageMap st)
          (next_span st) (tlog st) (mlog st ++ [c]) (clock st).

(** *** The telemetry runtime (external) *)

(** [tracer.startSpan(name, { kind, attributes }, parent)] *)
Definition startSpan (name : string) (kind : span_kind)
    (attrs : list (string * jsv)) (parent : pctx) : M span :=
  fun st =>
    let id := next_span st in
    (Ok id,
     mkState (sessionContextMap st) (activeAgentSpans st) (pendingUsageMap st)
             (S id) (tlog st ++ [StartSpan id name kind attrs parent])
             (mlog st) (clock st)).

Definition setAttribute (s : span) (k : string) (v : jsv) : M unit :=
  modify (log_t (SetAttr s k v)).
Definition setStatus (s : span) (c : status_code) (msg : option string) : M unit :=
  modify (log_t (SetStatus s c msg)).
Definition endSpan (s : span) : M unit := modify (log_t (EndSpan s)).
Definition counterAdd (name : string) (n : Z) (attrs : list (string * jsv)) : M unit :=
  modify (log_m (CounterAdd name n attrs)).
Definition histRecord (name : string) (n : Z) (attrs : list (string * jsv)) : M unit :=
  modify (log_m (HistRecord name n attrs)).

(** [Date.now()] *)
Definition now : M Z := gets clock.

(** Completion of a hook function called by the host. *)
Inductive completion : Type :=
| Normal (ret : jsv) (st : state)
| Abrupt (exn : string) (st : state).

Definition call (body : M jsv) (st : state) : completion :=
  match body st with
  | (Ok v, st') => Normal v st'
  | (Exn e, st') => Abrupt e st'
  end.

(** ** Helpers shared by the hooks *)

(** Writes the security module ([security.ts], called with the span and
    the security counters) makes, and whether it reported a detection.
    The module itself is not among the sources: the hooks are stated for
    every behaviour of it, including throwing. *)
Inductive span_op : Type :=
| OpAttr (key : string) (val : jsv)
| OpStatus (code : status_code) (msg : option string).

Inductive SecResult : Type :=
| SecThrows
| SecReturns (ops : list span_op) (metrics : list mcall) (detected : bool).

Fixpoint apply_ops (s : span) (ops : list span_op) : M unit :=
  match ops with
  | [] => ret tt
  | OpAttr k v :: ops' => setAttribute s k v ;; apply_ops s ops'
  | OpStatus c m :: ops' => setStatus s c m ;; apply_ops s ops'
  end.

Fixpoint log_metrics (ms : list mcall) : M unit :=
  match ms with
  | [] => ret tt
  | m :: ms' => modify (log_m m) ;; log_metrics ms'
  end.

(** A call to [checkToolSecurity] / [checkMessageSecurity] on span [s];
    returns whether a security event was reported. *)
Definition run_security (s : span) (r : SecResult) : M bool :=
  match r with
  | SecThrows => throw "security check failed"
  | SecReturns ops ms det => apply_ops s ops ;; log_metrics ms ;; ret det
  end.

(** [a || "default"] on an optional string field. *)
Definition or_str (o : option string) (d : string) : string :=
  match o with
  | Some s => if String.eqb s "" then d else s
  | None => d
  end.

(** [x || 0] on an optional number field. *)
Definition or0 (o : option Z) : Z :=
  match o with Some z => z | None => 0 end.

(** [event?.sessionKey || ctx?.sessionKey || "unknown"] *)
Definition resolve (event ctx : jsv) (k : string) : jsv :=
  js_or (opt_get event k) (js_or (opt_get ctx k) (JStr "unknown")).

(** [arr.filter((c) => c.type === "text")]: reading [c.type] throws on a
    [null] or [undefined] element. *)
Definition filter_text_parts (cs : list jsv) : M (list jsv) :=
  if existsb is_nullish cs
  then throw "TypeError: Cannot read properties of null (reading 'type')"
  else ret (filter (fun c => is_str (get c "type") "text") cs).

(** [for (const msg of messages)]: arrays and strings are iterable. *)
Definition iterate (v : jsv) : M (list jsv) :=
  match v with
  | JArr l => ret l
  | JStr s => ret (map (fun c => JStr (String c EmptyString)) (list_ascii_of_string s))
  | _ => throw "TypeError: messages is not iterable"
  end.

(** [messages.filter(p)]: only arrays have the method. *)
Definition js_filter (v : jsv) (p : jsv -> bool) : M (list jsv) :=
  match v with
  | JArr l => ret (filter p l)
  | _ => throw "TypeError: messages.filter is not a function"
  end.

(** [messages.length > 0]: the relational comparison converts the length
    with [ToPrimitive] (hint number) and [ToNumber]. A character of a
    [string] is one UTF-16 code unit (below 256 here). *)

(** [Number::toString] of an integer: plain digits below 10^21, the
    exponent form from there on. *)
Definition num_to_string (z : Z) : string :=
  if Z.abs z <? 10 ^ 21 then Z_to_dec z else
  let ds := list_ascii_of_string (Z_to_dec (Z.abs z)) in
  let sig := rev ((fix drop0 (l : list ascii) : list ascii :=
                     match l with
                     | "0"%char :: l' => drop0 l'
                     | _ => l
                     end) (rev ds)) in
  let mant := match sig with
              | [] => ""
              | [d] => String d EmptyString
              | d :: rest => String d ("." ++ string_of_list_ascii rest)
              end in
  (if z <? 0 then "-" else "") ++ mant ++ "e+" ++ Z_to_dec (Z.of_nat (length ds) - 1).

Definition has_key (k : string) (fs : list (string * jsv)) : bool :=
  existsb (fun p => String.eqb (fst p) k) fs.

(** [ToString(v)]; [None] when it throws. A plain object converts by its
    [toString] unless it has an own [toString] property, which is not
    callable in a data value: then [valueOf] returns the object itself
    and the conversion throws a [TypeError]. An array converts by
    [join(",")], [null] and [undefined] elements giving "". *)
Fixpoint to_string_checked (v : jsv) : option string :=
  match v with
  | JUndef => Some "undefined"
  | JNull => Some "null"
  | JBool true => Some "true"
  | JBool false => Some "false"
  | JNum z => Some (num_to_string z)
  | JStr s => Some s
  | JArr l =>
      match (fix go (l : list jsv) : option (list string) :=
               match l with
               | [] => Some []
               | x :: l' =>
                   match (match x with
                          | JUndef | JNull => Some ""
                          | _ => to_string_checked x
                          end), go l' with
                   | Some s, Some ss => Some (s :: ss)
                   | _, _ => None
                   end
               end) l with
      | Some ss => Some (join "," ss)
      | None => None
      end
  | JObj fs => if has_key "toString" fs then None else Some "[object Object]"
  end.

(** White space of [StringToNumber]: TAB, LF, VT, FF, CR, SPACE, NBSP. *)
Definition is_ws (c : ascii) : bool :=
  match nat_of_ascii c with
  | 9 | 10 | 11 | 12 | 13 | 32 | 160 => true
  | _ => false
  end%nat.

Fixpoint drop_ws (l : list ascii) : list ascii :=
  match l with
  | c :: l' => if is_ws c then drop_ws l' else l
  | [] => []
  end.

Definition trim_ws (l : list ascii) : list ascii := rev (drop_ws (rev (drop_ws l))).

Definition digit_val (base : Z) (c : ascii) : option Z :=
  let n := Z.of_nat (nat_of_ascii c) in
  let v := if (48 <=? n) && (n <=? 57) then n - 48
           else if (97 <=? n) && (n <=? 122) then n - 87
           else if (65 <=? n) && (n <=? 90) then n - 55
           else base in
  if v <? base then Some v else None.

(** The longest prefix of digits of [base], and the rest. *)
Fixpoint span_digits (base : Z) (l : list ascii) : list Z * list ascii :=
  match l with
  | c :: l' =>
      match digit_val base c with
      | Some v => let '(ds, r) := span_digits base l' in (v :: ds, r)
      | None => ([], l)
      end
  | [] => ([], [])
  end.

Definition digits_value (base : Z) (ds : list Z) : Z :=
  fold_left (fun acc d => acc * base + d) ds 0.

(** m * 10^e rounded to a double is above zero: the value exceeds
    2^-1075, half the least subnormal (a tie rounds to even, to 0). A
    value below 10^-324 is below that bound, which spares computing
    10^-e for very small exponents. Rounding is exact, as in V8. *)
Definition decimal_above_zero (m e : Z) (ndigits : Z) : bool :=
  if m =? 0 then false
  else if 0 <=? e then true
  else if ndigits + 324 <=? - e then false
  else m * 2 ^ 1075 >? 10 ^ (- e).

(** [StrUnsignedDecimalLiteral] above zero; [None]: not one. *)
Definition unsigned_decimal_gt0 (l : list ascii) : option bool :=
  if String.eqb (string_of_list_ascii l) "Infinity" then Some true else
  let '(ip, r1) := span_digits 10 l in
  let '(fp, r2) := match r1 with
                   | "."%char :: r => span_digits 10 r
                   | _ => ([], r1)
                   end in
  match (ip ++ fp)%list with
  | [] => None
  | ds =>
      let ex := match r2 with
                | [] => Some 0
                | c :: r =>
                    if Ascii.eqb c "e" || Ascii.eqb c "E" then
                      let '(sg, r') := match r with
                                       | "+"%char :: r' => (1, r')
                                       | "-"%char :: r' => (-1, r')
                                       | _ => (1, r)
                                       end in
                      match span_digits 10 r' with
                      | ((_ :: _) as eds, []) => Some (sg * digits_value 10 eds)
                      | _ => None
                      end
                    else None
                end in
      match ex with
      | Some x => Some (decimal_above_zero (digits_value 10 ds) (x - Z.of_nat (length fp))
                                           (Z.of_nat (length ds)))
      | None => None
      end
  end.

(** [StrDecimalLiteral]: a minus sign makes the value at most zero. *)
Definition decimal_gt0 (l : list ascii) : option bool :=
  match l with
  | "+"%char :: r => unsigned_decimal_gt0 r
  | "-"%char :: r => match unsigned_decimal_gt0 r with Some _ => Some false | None => None end
  | _ => unsigned_decimal_gt0 l
  end.

(** [NonDecimalIntegerLiteral] (0x, 0o, 0b) above zero. *)
Definition nondecimal_gt0 (l : list ascii) : option bool :=
  match l with
  | "0"%char :: c :: r =>
      let base := if Ascii.eqb c "x" || Ascii.eqb c "X" then 16
                  else if Ascii.eqb c "o" || Ascii.eqb c "O" then 8
                  else if Ascii.eqb c "b" || Ascii.eqb c "B" then 2
                  else 0 in
      if base =? 0 then None else
      match span_digits base r with
      | ((_ :: _) as ds, []) => Some (existsb (fun d => negb (d =? 0)) ds)
      | _ => None
      end
  | _ => None
  end.

(** [StringToNumber(s) > 0]: blank is 0, anything not a numeric literal
    is NaN; both compare false. *)
Definition str_gt0 (s : string) : bool :=
  match trim_ws (list_ascii_of_string s) with
  | [] => false
  | l => match nondecimal_gt0 l with
         | Some b => b
         | None => match decimal_gt0 l with Some b => b | None => false end
         end
  end.

(** [v > 0]; [None] when converting [v] throws. *)
Definition gt_zero (v : jsv) : option bool :=
  match v with
  | JUndef => Some false
  | JNull => Some false
  | JBool b => Some b
  | JNum z => Some (0 <? z)
  | JStr s => Some (str_gt0 s)
  | JArr _ => match to_string_checked v with Some s => Some (str_gt0 s) | None => None end
  | JObj fs => if has_key "toString" fs then None else Some false
  end.

(** [messages.length > 0] *)
Definition length_pos (v : jsv) : M bool :=
  match gt_zero (get v "length") with
  | Some b => ret b
  | None => throw "TypeError: Cannot convert object to primitive value"
  end.

(** ** diagnostics.ts *)

(** [getPendingUsage(sessionKey)] *)
Definition getPendingUsage (sessionKey : jsv) : M (option PendingUsageData) :=
  data <- gets (fun st => lookup sessionKey (pendingUsageMap st)) ;;
  (match data with
   | Some _ => modify (fun st => with_pending (map_delete sessionKey (pendingUsageMap st)) st)
   | None => ret tt
   end) ;;
  ret data.

Definition when_some (o : option Z) (f : Z -> M unit) : M unit :=
  match o with Some z => f z | None => ret tt end.

(** [if (x)] on an optional number: present and non-zero. *)
Definition when_truthy (o : option Z) (f : Z -> M unit) : M unit :=
  match o with Some z => when (negb (z =? 0)) (f z) | None => ret tt end.

(** [enrichSpanWithUsage(agentSpan, evt)]: the listener passes the raw
    event, so the fields read are those of the event. *)
Definition enrichSpanWithUsage (s : span) (data : DiagEvent) : M unit :=
  let usage := match de_usage data with Some u => u | None => empty_usage end in
  when_some (u_input usage) (fun n => setAttribute s "gen_ai.usage.input_tokens" (JNum n)) ;;
  when_some (u_output usage) (fun n => setAttribute s "gen_ai.usage.output_tokens" (JNum n)) ;;
  when_some (u_total usage) (fun n => setAttribute s "gen_ai.usage.total_tokens" (JNum n)) ;;
  when_some (u_cacheRead usage) (fun n => setAttribute s "gen_ai.usage.cache_read_tokens" (JNum n)) ;;
  when_some (u_cacheWrite usage) (fun n => setAttribute s "gen_ai.usage.cache_write_tokens" (JNum n)) ;;
  when_some (de_costUsd data) (fun n => setAttribute s "openclaw.llm.cost_usd" (JNum n)) ;;
  when_some (match de_context data with Some cw => cw_limit cw | None => None end)
            (fun n => setAttribute s "openclaw.context.limit" (JNum n)) ;;
  when_some (match de_context data with Some cw => cw_used cw | None => None end)
            (fun n => setAttribute s "openclaw.context.used" (JNum n)) ;;
  when (negb (String.eqb (or_str (de_provider data) "") ""))
       (setAttribute s "gen_ai.system" (JStr (or_str (de_provider data) ""))) ;;
  when (negb (String.eqb (or_str (de_model data) "") ""))
       (setAttribute s "gen_ai.response.model" (JStr (or_str (de_model data) ""))).

(** The listener [registerDiagnosticsListener] subscribes. *)
Definition on_model_usage (evt : DiagEvent) : M unit :=
  if negb (String.eqb (de_type evt) "model.usage") then ret tt else
  let sessionKey := JStr (or_str (de_sessionKey evt) "unknown") in
  let usage := match de_usage evt with Some u => u | None => empty_usage end in
  let costUsd := de_costUsd evt in
  let model := or_str (de_model evt) "unknown" in
  let provider := or_str (de_provider evt) "unknown" in
  modify (fun st => with_pending
    (map_set sessionKey (mkPUD costUsd usage (de_context evt) (de_durationMs evt) provider model)
             (pendingUsageMap st)) st) ;;
  let metricAttrs := [("gen_ai.response.model", JStr model); ("openclaw.provider", JStr provider)] in
  when_truthy (u_input usage) (fun n => counterAdd "tokensPrompt" n metricAttrs) ;;
  when_truthy (u_output usage) (fun n => counterAdd "tokensCompletion" n metricAttrs) ;;
  when_truthy (u_cacheRead usage) (fun n =>
    counterAdd "tokensPrompt" n (metricAttrs ++ [("token.type", JStr "cache_read")])) ;;
  when_truthy (u_cacheWrite usage) (fun n =>
    counterAdd "tokensPrompt" n (metricAttrs ++ [("token.type", JStr "cache_write")])) ;;
  when_truthy (u_total usage) (fun n => counterAdd "tokensTotal" n metricAttrs) ;;
  when_some costUsd (fun c => when (0 <? c) (counterAdd "openclaw.llm.cost.usd" c metricAttrs)) ;;
  when_some (de_durationMs evt) (fun d => histRecord "llmDuration" d metricAttrs) ;;
  counterAdd "llmRequests" 1 metricAttrs ;;
  agentSpan <- gets (fun st => lookup sessionKey (activeAgentSpans st)) ;;
  match agentSpan with
  | Some a =>
      enrichSpanWithUsage a evt ;;
      modify (fun st => with_pending (map_delete sessionKey (pendingUsageMap st)) st)
  | None => ret tt
  end.

(** ** hooks.ts *)

Section Hooks.

(** [config.captureContent] *)
Variable captureContent : bool.
(** [checkMessageSecurity(messageText, span, counters, sessionKey)] *)
Variable checkMessageSecurity : jsv -> jsv -> SecResult.
(** [checkToolSecurity(toolName, toolInput, span, counters, sessionKey, agentId)] *)
Variable checkToolSecurity : jsv -> jsv -> jsv -> jsv -> SecResult.
(** [JSON.stringify] *)
Variable json_stringify : jsv -> string.

(** *** message_received *)
Definition on_message_received (event ctx : jsv) : M jsv :=
  try_catch (
    let channel := js_or (opt_get event "channel") (JStr "unknown") in
    let sessionKey := resolve event ctx "sessionKey" in
    let from := js_or (opt_get event "from") (js_or (opt_get event "senderId") (JStr "unknown")) in
    let messageText := js_or (opt_get event "text") (js_or (opt_get event "message") (JStr "")) in
    messageSpan <- startSpan "openclaw.message.received" SERVER
      [("openclaw.message.channel", channel); ("openclaw.session.key", sessionKey);
       ("openclaw.message.direction", JStr "inbound"); ("openclaw.message.from", from)]
      ctx_active ;;
    (match messageText with
     | JStr s =>
         when (negb (String.eqb s ""))
           (_ <- run_security messageSpan (checkMessageSecurity messageText sessionKey) ;; ret tt)
     | _ => ret tt
     end) ;;
    counterAdd "messagesReceived" 1 [("openclaw.message.channel", channel)] ;;
    setStatus messageSpan STATUS_OK None ;;
    endSpan messageSpan) ;;
  ret JUndef.

(** *** before_agent_start *)
Definition on_before_agent_start (event ctx : jsv) : M jsv :=
  try_catch (
    let sessionKey := resolve event ctx "sessionKey" in
    let agentId := resolve event ctx "agentId" in
    let model := js_or (opt_get event "model") (JStr "unknown") in
    existing <- gets (fun st => lookup sessionKey (sessionContextMap st)) ;;
    sessionCtx <-
      match existing with
      | Some c => ret c
      | None =>
          rootSpan <- startSpan "openclaw.request" SERVER
            [("openclaw.session.key", sessionKey); ("openclaw.message.direction", JStr "inbound")]
            ctx_active ;;
          t <- now ;;
          let c := mkSTC rootSpan (Some rootSpan) None None t in
          modify (fun st => with_ctxmap (map_set sessionKey c (sessionContextMap st)) st) ;;
          ret c
      end ;;
    agentSpan <- startSpan "openclaw.agent.turn" INTERNAL
      [("openclaw.agent.id", agentId); ("openclaw.session.key", sessionKey);
       ("openclaw.agent.model", model)]
      (rootContext sessionCtx) ;;
    let agentContext : pctx := Some agentSpan in
    (* [sessionCtx.agentSpan = ...]: the stored object is updated in place *)
    modify (fun st => with_ctxmap
      (map_set sessionKey
         (mkSTC (rootSpan sessionCtx) (rootContext sessionCtx) (Some agentSpan)
                (Some agentContext) (startTime sessionCtx))
         (sessionContextMap st)) st) ;;
    modify (fun st => with_active (map_set sessionKey agentSpan (activeAgentSpans st)) st)) ;;
  ret JUndef.

(** [sessionCtx?.agentContext || sessionCtx?.rootContext || context.active()] *)
Definition tool_parent (sessionCtx : option SessionTraceContext) : pctx :=
  match sessionCtx with
  | Some c => match agentContext c with Some p => p | None => rootContext c end
  | None => ctx_active
  end.

Definition sum_lengths (parts : list jsv) : Z :=
  fold_left (fun sum c => sum + Z.of_nat (String.length (js_to_string (js_or (get c "text") (JStr "")))))
            parts 0.

(** *** tool_result_persist *)
Definition on_tool_result_persist (event ctx : jsv) : M jsv :=
  try_catch (
    let toolName := js_or (opt_get event "toolName") (JStr "unknown") in
    let toolCallId := js_or (opt_get event "toolCallId") (JStr "") in
    let isSynthetic := is_true (opt_get event "isSynthetic") in
    let sessionKey := js_or (opt_get ctx "sessionKey") (JStr "unknown") in
    let agentId := js_or (opt_get ctx "agentId") (JStr "unknown") in
    let toolInput := js_or (opt_get event "input")
                      (js_or (opt_get event "toolInput") (js_or (opt_get event "args") (JObj []))) in
    counterAdd "toolCalls" 1 [("tool.name", toolName); ("session.key", sessionKey)] ;;
    sessionCtx <- gets (fun st => lookup sessionKey (sessionContextMap st)) ;;
    let parentContext := tool_parent sessionCtx in
    s <- startSpan ("tool." ++ js_to_string toolName) INTERNAL
      [("openclaw.tool.name", toolName); ("openclaw.tool.call_id", toolCallId);
       ("openclaw.tool.is_synthetic", JBool isSynthetic); ("openclaw.session.key", sessionKey);
       ("openclaw.agent.id", agentId)]
      parentContext ;;
    securityEvent <- run_security s (checkToolSecurity toolName toolInput sessionKey agentId) ;;
    when (securityEvent && truthy toolInput)
      (setAttribute s "openclaw.tool.input_preview" (JStr (slice0 (json_stringify toolInput) 1000))) ;;
    let message := opt_get event "message" in
    (if truthy message then
       (match opt_get message "content" with
        | JArr contentArray =>
            textParts <- filter_text_parts contentArray ;;
            setAttribute s "openclaw.tool.result_chars" (JNum (sum_lengths textParts)) ;;
            setAttribute s "openclaw.tool.result_parts" (JNum (Z.of_nat (length contentArray)))
        | _ => ret tt
        end) ;;
       (if is_true (opt_get message "is_error") || is_true (opt_get message "isError") then
          counterAdd "toolErrors" 1 [("tool.name", toolName)] ;;
          setStatus s STATUS_ERROR (Some "Tool execution error")
        else when (negb securityEvent) (setStatus s STATUS_OK None))
     else when (negb securityEvent) (setStatus s STATUS_OK None)) ;;
    endSpan s) ;;
  ret JUndef.

(** *** agent_end *)

Definition usage_aliases_input := ["input"; "inputTokens"; "input_tokens"].
Definition usage_aliases_output := ["output"; "outputTokens"; "output_tokens"].

(** The [if / else if] chain over alias fields: the first one that is a
    number, or nothing. *)
Fixpoint first_num (u : jsv) (ks : list string) : Z :=
  match ks with
  | [] => 0
  | k :: ks' => match opt_get u k with JNum z => z | _ => first_num u ks' end
  end.

(** One iteration of the transcript loop; the accumulator holds
    [totalInputTokens], [totalOutputTokens], [cacheReadTokens],
    [cacheWriteTokens] and [model]. *)
Definition fallback_step (acc : Z * Z * Z * Z * jsv) (msg : jsv) : Z * Z * Z * Z * jsv :=
  let '(i, o, r, w, model) := acc in
  let assistant := is_str (opt_get msg "role") "assistant" in
  let '(i, o, r, w) :=
    if assistant && truthy (opt_get msg "usage") then
      let u := get msg "usage" in
      (i + first_num u usage_aliases_input, o + first_num u usage_aliases_output,
       r + first_num u ["cacheRead"], w + first_num u ["cacheWrite"])
    else (i, o, r, w) in
  let model := if assistant && truthy (opt_get msg "model") then get msg "model" else model in
  (i, o, r, w, model).

Definition fallback_usage (msgs : list jsv) : Z * Z * Z * Z * jsv :=
  fold_left fallback_step msgs (0, 0, 0, 0, JStr "unknown").

(** Token counts, model and cost, from the pending record or the
    transcript. *)
Definition turn_usage (diagUsage : option PendingUsageData) (messages : jsv)
    : M (Z * Z * Z * Z * jsv * option Z) :=
  match diagUsage with
  | Some d =>
      ret (or0 (u_input (pu_usage d)), or0 (u_output (pu_usage d)),
           or0 (u_cacheRead (pu_usage d)), or0 (u_cacheWrite (pu_usage d)),
           JStr (or_str (Some (pu_model d)) "unknown"), pu_costUsd d)
  | None =>
      msgs <- iterate messages ;;
      let '(i, o, r, w, model) := fallback_usage msgs in
      ret (i, o, r, w, model, None)
  end.

(** Text of a message: a plain string or its [text] parts. *)
Definition message_text (content : jsv) : M string :=
  match content with
  | JStr s => ret s
  | JArr cs =>
      parts <- filter_text_parts cs ;;
      ret (join (String "010"%char EmptyString)
                (map (fun c => js_to_string (js_or (get c "text") (JStr ""))) parts))
  | _ => ret ""
  end.

Definition last_text (l : list jsv) : M string :=
  match l with
  | [] => ret ""
  | _ => message_text (get (last l JUndef) "content")
  end.

(** Content capture: last user and last assistant message. *)
Definition capture (messages : jsv) : M (string * string) :=
  pos <- (if captureContent then length_pos messages else ret false) ;;
  if pos then
    userMessages <- js_filter messages (fun m => is_str (opt_get m "role") "user") ;;
    inputContent <- last_text userMessages ;;
    assistantMessages <- js_filter messages (fun m => is_str (opt_get m "role") "assistant") ;;
    outputContent <- last_text assistantMessages ;;
    ret (inputContent, outputContent)
  else ret ("", "").

(** [diagUsage?.context?.limit] / [.used] *)
Definition ctx_field (f : ContextWindow -> option Z) (d : option PendingUsageData) : option Z :=
  match d with
  | Some p => match pu_context p with Some cw => f cw | None => None end
  | None => None
  end.

(** The [if (sessionCtx?.agentSpan)] block. *)
Definition end_agent_span (a : span) (agentId durationMs success errorMsg : jsv)
    (diagUsage : option PendingUsageData)
    (i o r w : Z) (model : jsv) (costUsd : option Z)
    (inputContent outputContent : string) : M unit :=
  let totalTokens := i + o + r + w in
  (match durationMs with
   | JNum d => setAttribute a "openclaw.agent.duration_ms" (JNum d)
   | _ => ret tt
   end) ;;
  setAttribute a "gen_ai.usage.input_tokens" (JNum i) ;;
  setAttribute a "gen_ai.usage.output_tokens" (JNum o) ;;
  setAttribute a "gen_ai.usage.total_tokens" (JNum totalTokens) ;;
  setAttribute a "gen_ai.response.model" model ;;
  setAttribute a "openclaw.agent.success" success ;;
  when (0 <? r) (setAttribute a "gen_ai.usage.cache_read_tokens" (JNum r)) ;;
  when (0 <? w) (setAttribute a "gen_ai.usage.cache_write_tokens" (JNum w)) ;;
  when_some costUsd (fun c => setAttribute a "openclaw.llm.cost_usd" (JNum c)) ;;
  when_truthy (ctx_field cw_limit diagUsage)
    (fun n => setAttribute a "openclaw.context.limit" (JNum n)) ;;
  when_truthy (ctx_field cw_used diagUsage)
    (fun n => setAttribute a "openclaw.context.used" (JNum n)) ;;
  when (negb (String.eqb inputContent ""))
    (setAttribute a "gen_ai.prompt" (JStr (slice0 inputContent 10000))) ;;
  when (negb (String.eqb outputContent ""))
    (setAttribute a "gen_ai.completion" (JStr (slice0 outputContent 10000))) ;;
  let metricAttrs := [("gen_ai.response.model", model); ("openclaw.agent.id", agentId)] in
  when (match diagUsage with None => true | Some _ => false end && ((0 <? i) || (0 <? o)))
    (counterAdd "tokensPrompt" (i + r + w) metricAttrs ;;
     counterAdd "tokensCompletion" o metricAttrs ;;
     counterAdd "tokensTotal" totalTokens metricAttrs ;;
     counterAdd "llmRequests" 1 metricAttrs) ;;
  (match durationMs with
   | JNum d => histRecord "agentTurnDuration" d metricAttrs
   | _ => ret tt
   end) ;;
  (if truthy errorMsg then
     setAttribute a "openclaw.agent.error" (JStr (slice0 (js_to_string errorMsg) 500)) ;;
     setStatus a STATUS_ERROR (Some (slice0 (js_to_string errorMsg) 200))
   else setStatus a STATUS_OK None) ;;
  endSpan a.

Definition same_span (r : span) (a : option span) : bool :=
  match a with Some a' => Nat.eqb r a' | None => false end.

(** The [if (sessionCtx?.rootSpan && rootSpan !== agentSpan)] block. *)
Definition end_root_span (c : SessionTraceContext) : M unit :=
  when (negb (same_span (rootSpan c) (agentSpan c)))
    (t <- now ;;
     setAttribute (rootSpan c) "openclaw.request.duration_ms" (JNum (t - startTime c)) ;;
     setStatus (rootSpan c) STATUS_OK None ;;
     endSpan (rootSpan c)).

Definition on_agent_end (event ctx : jsv) : M jsv :=
  try_catch (
    let sessionKey := resolve event ctx "sessionKey" in
    let agentId := resolve event ctx "agentId" in
    let durationMs := opt_get event "durationMs" in
    let success := JBool (match opt_get event "success" with JBool false => false | _ => true end) in
    let errorMsg := opt_get event "error" in
    diagUsage <- getPendingUsage sessionKey ;;
    let messages := js_or (opt_get event "messages") (JArr []) in
    tu <- turn_usage diagUsage messages ;;
    let '(i, o, r, w, model, costUsd) := tu in
    content <- capture messages ;;
    let '(inputContent, outputContent) := content in
    sessionCtx <- gets (fun st => lookup sessionKey (sessionContextMap st)) ;;
    (match sessionCtx with
     | Some c =>
         match agentSpan c with
         | Some a => end_agent_span a agentId durationMs success errorMsg diagUsage
                       i o r w model costUsd inputContent outputContent
         | None => ret tt
         end
     | None => ret tt
     end) ;;
    (match sessionCtx with Some c => end_root_span c | None => ret tt end) ;;
    modify (fun st => with_ctxmap (map_delete sessionKey (sessionContextMap st)) st) ;;
    modify (fun st => with_active (map_delete sessionKey (activeAgentSpans st)) st)) ;;
  ret JUndef.

(** *** command:new / command:reset / command:stop *)
Definition on_command (event : jsv) : M jsv :=
  try_catch (
    let action := js_or (opt_get event "action") (JStr "unknown") in
    let sessionKey := js_or (opt_get event "sessionKey") (JStr "unknown") in
    let source := js_or (opt_get (opt_get event "context") "commandSource") (JStr "unknown") in
    sessionCtx <- gets (fun st => lookup sessionKey (sessionContextMap st)) ;;
    let parentContext := match sessionCtx with Some c => rootContext c | None => ctx_active end in
    s <- startSpan ("openclaw.command." ++ js_to_string action) INTERNAL
      [("openclaw.command.action", action); ("openclaw.command.session_key", sessionKey);
       ("openclaw.command.source", source)]
      parentContext ;;
    when (is_str action "new" || is_str action "reset")
      (counterAdd "sessionResets" 1 [("command.source", source)]) ;;
    setStatus s STATUS_OK None ;;
    endSpan s) ;;
  ret JUndef.

(** *** gateway:startup *)
Definition on_gateway_startup (event : jsv) : M jsv :=
  try_catch (
    s <- startSpan "openclaw.gateway.startup" INTERNAL
      [("openclaw.event.type", JStr "gateway"); ("openclaw.event.action", JStr "startup")]
      ctx_active ;;
    setStatus s STATUS_OK None ;;
    endSpan s) ;;
  ret JUndef.

End Hooks.

(** ** The periodic cleanup *)

Definition maxAge : Z := 5 * 60 * 1000.

Fixpoint sweep (t : Z) (entries : list (jsv * SessionTraceContext)) : M unit :=
  match entries with
  | [] => ret tt
  | (key, c) :: rest =>
      when (t - startTime c >? maxAge)
        (try_catch
           ((match agentSpan c with Some a => endSpan a | None => ret tt end) ;;
            when (negb (same_span (rootSpan c) (agentSpan c))) (endSpan (rootSpan c))) ;;
         modify (fun st => with_ctxmap (map_delete key (sessionContextMap st)) st)) ;;
      sweep t rest
  end.

(** The [setInterval] callback: iterating a [Map] while deleting from it
    visits every entry present when the loop started. *)
Definition cleanup_stale : M unit :=
  t <- now ;;
  entries <- gets sessionContextMap ;;
  sweep t entries.

(** ** The host driving the plugin *)

(** The plugin configuration and the external functions the hooks call. *)
Record Env : Type := mkEnv {
  env_captureContent : bool;
  env_checkMessageSecurity : jsv -> jsv -> SecResult;
  env_checkToolSecurity : jsv -> jsv -> jsv -> jsv -> SecResult;
  env_json_stringify : jsv -> string
}.

Inductive event : Type :=
| EvMessageReceived (ev ctx : jsv)
| EvBeforeAgentStart (ev ctx : jsv)
| EvToolResultPersist (ev ctx : jsv)
| EvAgentEnd (ev ctx : jsv)
| EvCommand (ev : jsv)
| EvGatewayStartup (ev : jsv)
| EvModelUsage (d : DiagEvent)
| EvTick (ms : Z)
| EvCleanup.

Definition after (c : completion) : state :=
  match c with Normal _ st => st | Abrupt _ st => st end.

Definition hook (E : Env) (e : event) : option (M jsv) :=
  match e with
  | EvMessageReceived ev ctx => Some (on_message_received (env_checkMessageSecurity E) ev ctx)
  | EvBeforeAgentStart ev ctx => Some (on_before_agent_start ev ctx)
  | EvToolResultPersist ev ctx =>
      Some (on_tool_result_persist (env_checkToolSecurity E) (env_json_stringify E) ev ctx)
  | EvAgentEnd ev ctx => Some (on_agent_end (env_captureContent E) ev ctx)
  | EvCommand ev => Some (on_command ev)
  | EvGatewayStartup ev => Some (on_gateway_startup ev)
  | _ => None
  end.

Definition step (E : Env) (st : state) (e : event) : state :=
  match hook E e with
  | Some h => after (call h st)
  | None =>
      match e with
      | EvModelUsage d => snd (on_model_usage d st)
      | EvTick ms =>
          mkState (sessionContextMap st) (activeAgentSpans st) (pendingUsageMap st)
                  (next_span st) (tlog st) (mlog st) (clock st + ms)
      | EvCleanup => snd (cleanup_stale st)
      | _ => st
      end
  end.

Definition run (E : Env) (evs : list event) (st : state) : state :=
  fold_left (step E) evs st.

(** ** Reading the logs *)

Definition count_starts (name : string) (l : list tcall) : nat :=
  length (filter (fun c => match c with
                           | StartSpan _ n _ _ _ => String.eqb n name
                           | _ => false
                           end) l).

Definition count_ends (s : span) (l : list tcall) : nat :=
  length (filter (fun c => match c with EndSpan s' => Nat.eqb s s' | _ => false end) l).

(** The values written to attribute [k] of span [s], in order. *)
Definition writes (s : span) (k : string) (l : list tcall) : list jsv :=
  flat_map (fun c => match c with
                     | SetAttr s' k' v => if String.eqb k k' && Nat.eqb s s' then [v] else []
                     | _ => []
                     end) l.

Definition count_metric (name : string) (l : list mcall) : nat :=
  length (filter (fun c => match c with
                           | CounterAdd n _ _ => String.eqb n name
                           | _ => false
                           end) l).

(** A small configuration: capture off, no security detection. *)
Definition env0 : Env :=
  mkEnv false (fun _ _ => SecReturns [] [] false) (fun _ _ _ _ => SecReturns [] [] false)
        (fun _ => "{}").

Definition obj := JObj.
Definition key_ctx (k : string) : jsv := obj [("sessionKey", JStr k)].

Open Scope list_scope.

(** [st] with calls appended to both logs. *)
Definition upd (st : state) (l : list tcall) (ml : list mcall) : state :=
  mkState (sessionContextMap st) (activeAgentSpans st) (pendingUsageMap st)
          (next_span st) (tlog st ++ l) (mlog st ++ ml) (clock st).

(** [m] returns [x], never throws, and only appends [l] and [ml]. *)
Definition LogOnly {A} (m : M A) (x : A) (l : list tcall) (ml : list mcall) : Prop :=
  forall st, m st = (Ok x, upd st l ml).

Fixpoint guard {A} (b : bool) (l : list A) : list A :=
  match l with
  | [] => []
  | x :: l' => (if b then [x] else []) ++ guard b l'
  end.

Arguments guard : simpl never.

Definition on_num {A} (d : jsv) (f : Z -> list A) : list A :=
  match d with JNum z => f z | _ => [] end.

Definition on_some {A} (o : option Z) (f : Z -> list A) : list A :=
  match o with Some z => f z | None => [] end.

(** The calls a block makes on span [a] only set its attributes or status. *)
Definition quiet_on (a : span) (c : tcall) : Prop :=
  match c with
  | SetAttr s _ _ | SetStatus s _ _ => s = a
  | _ => False
  end.


Definition Pure {A} (m : M A) : Prop := forall st, snd (m st) = st.






Definition agent_attrs (ev ctx : jsv) : list (string * jsv) :=
  [("openclaw.agent.id", resolve ev ctx "agentId");
   ("openclaw.session.key", resolve ev ctx "sessionKey");
   ("openclaw.agent.model", js_or (opt_get ev "model") (JStr "unknown"))].

Definition root_attrs (ev ctx : jsv) : list (string * jsv) :=
  [("openclaw.session.key", resolve ev ctx "sessionKey");
   ("openclaw.message.direction", JStr "inbound")].

Definition tool_events (ts : list (jsv * jsv)) : list event :=
  map (fun p => EvToolResultPersist (fst p) (snd p)) ts.



Definition s1_start : jsv := obj [("sessionKey", JStr "s1"); ("agentId", JStr "a1")].
Definition s1_tools : list (jsv * jsv) :=
  [(obj [("toolName", JStr "Read")], key_ctx "s1");
   (obj [("toolName", JStr "exec"); ("message", obj [("isError", JBool true)])], key_ctx "s1")].
Definition s1_end (messages : jsv) : jsv :=
  obj [("sessionKey", JStr "s1"); ("success", JBool true); ("messages", messages)].
Definition s1_transcript : jsv :=
  JArr [obj [("role", JStr "user"); ("content", JStr "hi")];
        obj [("role", JStr "assistant"); ("content", JArr [obj [("type", JStr "text"); ("text", JStr "hello")]]);
             ("usage", obj [("input", JNum 10); ("output", JNum 5)])]].

Definition d_s1 : DiagEvent :=
  mkDiag "model.usage" (Some "s1") (Some (mkUsage (Some 10) (Some 5) None None (Some 20)))
         None None None None None.




(** Spec side of the fallback: the usage objects of all assistant
    messages, and the sum of one field over them. *)
Definition assistant_usages (l : list jsv) : list jsv :=
  map (fun m => get m "usage")
    (filter (fun m => is_str (opt_get m "role") "assistant" && truthy (opt_get m "usage")) l).

Definition sum_field (ks : list string) (us : list jsv) : Z :=
  fold_right (fun u acc => first_num u ks + acc) 0 us.

(** A turn with two model calls. *)
Definition s1_transcript_multi_l : list jsv :=
  [obj [("role", JStr "user"); ("content", JStr "hi")];
   obj [("role", JStr "assistant"); ("content", JStr "calling a tool");
        ("usage", obj [("input", JNum 10); ("output", JNum 5); ("cacheRead", JNum 3)])];
   obj [("role", JStr "assistant"); ("content", JStr "done");
        ("usage", obj [("inputTokens", JNum 20); ("output_tokens", JNum 7)])]].

Definition c4_state : state := run env0 [EvBeforeAgentStart s1_start (obj [])] init_state.

Definition c4_ctx : SessionTraceContext := Eval vm_compute in
  match lookup (JStr "s1") (sessionContextMap c4_state) with
  | Some c => c | None => mkSTC 0 None None None 0 end.

(** What the cleanup does to one entry, and to the whole snapshot. *)
Definition is_stale (t : Z) (c : SessionTraceContext) : bool := t - startTime c >? maxAge.

Definition stale_log (t : Z) (c : SessionTraceContext) : list tcall :=
  guard (is_stale t c)
    ((match agentSpan c with Some a => [EndSpan a] | None => [] end) ++
     guard (negb (same_span (rootSpan c) (agentSpan c))) [EndSpan (rootSpan c)]).

Definition sweep_log (t : Z) (es : list (jsv * SessionTraceContext)) : list tcall :=
  flat_map (fun p => stale_log t (snd p)) es.

Definition sweep_map (t : Z) (es : list (jsv * SessionTraceContext))
    (m : list (jsv * SessionTraceContext)) : list (jsv * SessionTraceContext) :=
  fold_left (fun m p => if is_stale t (snd p) then map_delete (fst p) m else m) es m.

(** A session whose turn-end never came, five minutes and a millisecond later. *)
Definition c6_state : state :=
  run env0 [EvBeforeAgentStart s1_start (obj []); EvTick 300001] init_state.

Definition d_s1_late : DiagEvent :=
  mkDiag "model.usage" (Some "s1") (Some (mkUsage (Some 40) (Some 2) None None (Some 42)))
         None None None None None.

(** ** Usage totals, the fallback model, store invariants *)


Definition metric_total (name : string) (l : list mcall) : Z :=
  fold_right (fun c acc => match c with
                           | CounterAdd n z _ => if String.eqb n name then z + acc else acc
                           | HistRecord _ _ _ => acc
                           end) 0 l.

Definition usage_of (d : DiagEvent) : Usage :=
  match de_usage d with Some u => u | None => empty_usage end.

Definition usage_key (d : DiagEvent) : jsv := JStr (or_str (de_sessionKey d) "unknown").

Definition usage_record (d : DiagEvent) : PendingUsageData :=
  mkPUD (de_costUsd d) (usage_of d) (de_context d) (de_durationMs d)
        (or_str (de_provider d) "unknown") (or_str (de_model d) "unknown").


(** A computation that leaves the store and the side table as they are. *)
Definition Keeps {A} (m : M A) : Prop :=
  forall st, sessionContextMap (snd (m st)) = sessionContextMap st /\
             activeAgentSpans (snd (m st)) = activeAgentSpans st.

(** A computation that leaves them, or removes key [k] from both. *)
Definition KeepsOrDrops (k : jsv) {A} (m : M A) : Prop :=
  forall st,
    (sessionContextMap (snd (m st)) = sessionContextMap st /\
     activeAgentSpans (snd (m st)) = activeAgentSpans st) \/
    (sessionContextMap (snd (m st)) = map_delete k (sessionContextMap st) /\
     activeAgentSpans (snd (m st)) = map_delete k (activeAgentSpans st)).

(** Every agent span held in the store is the one the side table holds
    for the same key. *)
Definition agent_span_tracked (st : state) : Prop :=
  forall k c a, lookup k (sessionContextMap st) = Some c -> agentSpan c = Some a ->
                lookup k (activeAgentSpans st) = Some a.

(** The store holds each key once. *)
Definition keys_unique (st : state) : Prop :=
  NoDup (map fst (sessionContextMap st)).

(** A computation that only appends to the trace log and never moves the
    span counter back. *)
Definition Grows {A} (m : M A) : Prop :=
  forall st, (exists l, tlog (snd (m st)) = tlog st ++ l) /\
             (next_span st <= next_span (snd (m st)))%nat.

(** Every stored context has its root span as root context, and that root
    span was started as the "openclaw.request" server span. *)
Definition roots_logged (st : state) : Prop :=
  forall k c, lookup k (sessionContextMap st) = Some c ->
    rootContext c = Some (rootSpan c) /\
    exists attrs, In (StartSpan (rootSpan c) "openclaw.request" SERVER attrs ctx_active) (tlog st).

(** Events that neither end the turn of session [k] nor sweep the store. *)
Definition keeps_session (k : jsv) (e : event) : bool :=
  match e with
  | EvAgentEnd ev ctx => negb (jsv_eqb (resolve ev ctx "sessionKey") k)
  | EvCleanup => false
  | _ => true
  end.

(** ** The SDK loader of [diagnostics.ts] *)


(** The value held in [onDiagnosticEvent]: a function, or another value. *)
Inductive dval : Type :=
| DFun
| DVal (v : jsv).

(** The module-level state of the SDK loader; [imports] counts the
    [import("openclaw/plugin-sdk")] calls made. *)
Record sdk_state : Type := mkSdk {
  onDiagnosticEvent : dval;
  sdkLoadAttempted : bool;
  imports : nat
}.

Definition sdk_init : sdk_state := mkSdk (DVal JNull) false 0.

(** What the dynamic import does when it is made: it rejects, or yields a
    module whose [onDiagnosticEvent] export reads as the given value. *)
Inductive import_result : Type :=
| ImportFails
| ImportModule (export : dval).

(** [loadSdk()], each call completing before the next starts. *)
Definition loadSdk (imp : import_result) (st : sdk_state) : sdk_state :=
  if sdkLoadAttempted st then st else
  let st := mkSdk (onDiagnosticEvent st) true (S (imports st)) in
  match imp with
  | ImportFails => st
  | ImportModule v => mkSdk v (sdkLoadAttempted st) (imports st)
  end.

Definition not_null (v : dval) : bool :=
  match v with DVal JNull => false | _ => true end.

Definition dval_truthy (v : dval) : bool :=
  match v with DFun => true | DVal v => truthy v end.

(** [hasDiagnosticsSupport()] *)
Definition hasDiagnosticsSupport (st : sdk_state) : bool := not_null (onDiagnosticEvent st).

(** [checkDiagnosticsSupport()] *)
Definition checkDiagnosticsSupport (imp : import_result) (st : sdk_state) : bool * sdk_state :=
  let st := loadSdk imp st in (not_null (onDiagnosticEvent st), st).

Inductive registration : Type :=
| RegNoop          (* [return () => {}] *)
| RegSubscribed    (* [onDiagnosticEvent(listener)] returned the unsubscribe function *)
| RegThrows.       (* calling a value that is not a function *)

(** [registerDiagnosticsListener()] up to the subscription. *)
Definition registerDiagnosticsListener (imp : import_result) (st : sdk_state)
    : registration * sdk_state :=
  let st := loadSdk imp st in
  if negb (dval_truthy (onDiagnosticEvent st)) then (RegNoop, st)
  else match onDiagnosticEvent st with
       | DFun => (RegSubscribed, st)
       | DVal _ => (RegThrows, st)
       end.

Definition load_all (imps : list import_result) (st : sdk_state) : sdk_state :=
  fold_left (fun st imp => loadSdk imp st) imps st.


Definition sec_ok : jsv -> jsv -> SecResult := fun _ _ => SecReturns [] [] false.
Definition sec_throw : jsv -> jsv -> SecResult := fun _ _ => SecThrows.
Definition ev_hi : jsv := obj [("text", JStr "hi")].


(** * Proofs *)

Example scenario_spec :
  let st := run env0
    [EvBeforeAgentStart (obj [("sessionKey", JStr "s1"); ("agentId", JStr "a1"); ("model", JStr "m")]) (key_ctx "s1");
     EvToolResultPersist (obj [("toolName", JStr "Read")]) (key_ctx "s1");
     EvToolResultPersist (obj [("toolName", JStr "exec"); ("message", obj [("isError", JBool true)])]) (key_ctx "s1");
     EvAgentEnd (obj [("success", JBool false); ("error", JStr "boom");
                      ("messages", JArr [obj [("role", JStr "assistant");
                                              ("usage", obj [("input", JNum 10); ("output", JNum 5)])]])])
                (key_ctx "s1")] init_state in
  writes 1%nat "gen_ai.usage.total_tokens" (tlog st) = [JNum 15] /\
  count_ends 0%nat (tlog st) = 1%nat /\ count_ends 1 (tlog st) = 1%nat /\
  In (SetStatus 3%nat STATUS_ERROR (Some "Tool execution error")) (tlog st) /\
  In (SetStatus 1%nat STATUS_ERROR (Some "boom")) (tlog st) /\
  sessionContextMap st = [].
Proof. vm_compute. repeat split; auto 20. Qed.

Arguments end_agent_span : simpl never.
Arguments getPendingUsage : simpl never.
Arguments turn_usage : simpl never.
Arguments capture : simpl never.

(** ** Key equality *)

Lemma jsv_eqb_true : forall a b, jsv_eqb a b = true -> a = b.
Proof.
  fix IH 1. intros a b. destruct a as [| |x|x|x|xs|xs], b as [| |y|y|y|ys|ys];
    simpl; intro H; try discriminate; try reflexivity.
  - apply Bool.eqb_prop in H. congruence.
  - apply Z.eqb_eq in H. congruence.
  - apply String.eqb_eq in H. congruence.
  - f_equal. revert ys H. induction xs as [|x xs IHxs]; intros [|y ys] H;
      try discriminate; auto.
    apply andb_true_iff in H as [H1 H2]. apply IH in H1. f_equal; auto.
  - f_equal. revert ys H. induction xs as [|[kx x] xs IHxs]; intros [|[ky y] ys] H;
      try discriminate; auto.
    apply andb_true_iff in H as [H H3]. apply andb_true_iff in H as [H1 H2].
    apply String.eqb_eq in H1. apply IH in H2. subst. f_equal; auto.
Qed.

Lemma jsv_eqb_refl : forall a, jsv_eqb a a = true.
Proof.
  fix IH 1. intros [| |x|x|x|xs|xs]; simpl.
  - reflexivity.
  - reflexivity.
  - apply Bool.eqb_reflx.
  - apply Z.eqb_refl.
  - apply String.eqb_refl.
  - induction xs as [|x xs IHxs]; auto. rewrite IH. exact IHxs.
  - induction xs as [|[kx x] xs IHxs]; auto.
    rewrite String.eqb_refl, IH. exact IHxs.
Qed.

Lemma jsv_eqb_eq : forall a b, jsv_eqb a b = true <-> a = b.
Proof.
  intros a b. split; [apply jsv_eqb_true|intros <-; apply jsv_eqb_refl].
Qed.

Lemma jsv_eqb_neq : forall a b, a <> b -> jsv_eqb a b = false.
Proof.
  intros a b H. destruct (jsv_eqb a b) eqn:E; auto. apply jsv_eqb_eq in E. congruence.
Qed.

(** ** Maps *)

Section AssocFacts.
Context {V : Type}.
Implicit Types (m : list (jsv * V)) (v : V).

Lemma lookup_replace_same : forall k v m,
  lookup k m <> None -> lookup k (replace k v m) = Some v.
Proof.
  intros k v m. induction m as [|[k' v'] m IH]; simpl; intro H; [congruence|].
  destruct (jsv_eqb k k') eqn:E; simpl; rewrite ?E; auto.
Qed.

Lemma lookup_replace_other : forall k k' v m,
  k' <> k -> lookup k' (replace k v m) = lookup k' m.
Proof.
  intros k k' v m Hne. induction m as [|[k0 v0] m IH]; simpl; auto.
  destruct (jsv_eqb k k0) eqn:E; simpl.
  - apply jsv_eqb_eq in E. subst. rewrite jsv_eqb_neq; auto.
  - rewrite IH. reflexivity.
Qed.

Lemma lookup_app_none : forall k m m',
  lookup k m = None -> lookup k (m ++ m') = lookup k m'.
Proof.
  intros k m m'. induction m as [|[k0 v0] m IH]; simpl; auto.
  destruct (jsv_eqb k k0); [discriminate|auto].
Qed.

Lemma lookup_map_set_same : forall k v m, lookup k (map_set k v m) = Some v.
Proof.
  intros k v m. unfold map_set. destruct (lookup k m) eqn:E.
  - apply lookup_replace_same. congruence.
  - rewrite lookup_app_none by assumption. simpl. rewrite jsv_eqb_refl. reflexivity.
Qed.

Lemma lookup_map_set_other : forall k k' v m,
  k' <> k -> lookup k' (map_set k v m) = lookup k' m.
Proof.
  intros k k' v m Hne. unfold map_set. destruct (lookup k m).
  - apply lookup_replace_other; auto.
  - induction m as [|[k0 v0] m IH]; simpl.
    + rewrite jsv_eqb_neq; auto.
    + destruct (jsv_eqb k' k0); auto.
Qed.

Lemma lookup_map_delete_same : forall k m, lookup k (map_delete k m) = None.
Proof.
  intros k m. induction m as [|[k0 v0] m IH]; simpl; auto.
  destruct (jsv_eqb k k0) eqn:E; simpl; auto. rewrite E. exact IH.
Qed.

Lemma lookup_map_delete_other : forall k k' m,
  k' <> k -> lookup k' (map_delete k m) = lookup k' m.
Proof.
  intros k k' m Hne. induction m as [|[k0 v0] m IH]; simpl; auto.
  destruct (jsv_eqb k k0) eqn:E; simpl.
  - apply jsv_eqb_eq in E. subst. rewrite jsv_eqb_neq; auto.
  - rewrite IH. reflexivity.
Qed.

Lemma lookup_in : forall k v m, lookup k m = Some v -> In (k, v) m.
Proof.
  intros k v m. induction m as [|[k0 v0] m IH]; simpl; intro H; [discriminate|].
  destruct (jsv_eqb k k0) eqn:E.
  - apply jsv_eqb_eq in E. inversion H. subst. auto.
  - auto.
Qed.

Lemma in_map_set : forall k v m k' v',
  In (k', v') (map_set k v m) -> (k', v') = (k, v) \/ In (k', v') m.
Proof.
  intros k v m k' v'. unfold map_set. destruct (lookup k m).
  - clear. induction m as [|[k0 v0] m IH]; simpl; auto.
    destruct (jsv_eqb k k0) eqn:E; simpl; intros [H|H].
    + apply jsv_eqb_eq in E. subst. inversion H. auto.
    + auto.
    + auto.
    + destruct (IH H); auto.
  - intro H. apply in_app_or in H as [H|[H|[]]]; auto.
Qed.

Lemma in_map_delete : forall k m p, In p (map_delete k m) -> In p m.
Proof. intros k m p H. unfold map_delete in H. apply filter_In in H. tauto. Qed.

End AssocFacts.

(** ** Programs that only append to the logs *)

Lemma guard_spec {A} (b : bool) (l : list A) : guard b l = if b then l else [].
Proof.
  induction l as [|x l IH]; unfold guard; fold (@guard A); rewrite ?IH; destruct b; reflexivity.
Qed.

Lemma upd_nil : forall st, upd st [] [] = st.
Proof. intros [] ; unfold upd; simpl; rewrite !app_nil_r; reflexivity. Qed.

Lemma upd_upd : forall st l1 ml1 l2 ml2,
  upd (upd st l1 ml1) l2 ml2 = upd st (l1 ++ l2) (ml1 ++ ml2).
Proof. intros. unfold upd; simpl. rewrite !app_assoc. reflexivity. Qed.

Section LogOnlyRules.

Lemma LO_ret {A} (x : A) : LogOnly (ret x) x [] [].
Proof. intro st. unfold ret. rewrite upd_nil. reflexivity. Qed.

Lemma LO_bind {A B} (m : M A) (k : A -> M B) x y l1 ml1 l2 ml2 :
  LogOnly m x l1 ml1 -> LogOnly (k x) y l2 ml2 ->
  LogOnly (bind m k) y (l1 ++ l2) (ml1 ++ ml2).
Proof.
  intros H1 H2 st. unfold bind. rewrite H1, H2, upd_upd. reflexivity.
Qed.

Lemma LO_setAttribute s k v : LogOnly (setAttribute s k v) tt [SetAttr s k v] [].
Proof. intros []. unfold upd; simpl. rewrite ?app_nil_r. reflexivity. Qed.

Lemma LO_setStatus s c m : LogOnly (setStatus s c m) tt [SetStatus s c m] [].
Proof. intros []. unfold upd; simpl. rewrite ?app_nil_r. reflexivity. Qed.

Lemma LO_endSpan s : LogOnly (endSpan s) tt [EndSpan s] [].
Proof. intros []. unfold upd; simpl. rewrite ?app_nil_r. reflexivity. Qed.

Lemma LO_counterAdd n z a : LogOnly (counterAdd n z a) tt [] [CounterAdd n z a].
Proof. intros []. unfold upd; simpl. rewrite ?app_nil_r. reflexivity. Qed.

Lemma LO_histRecord n z a : LogOnly (histRecord n z a) tt [] [HistRecord n z a].
Proof. intros []. unfold upd; simpl. rewrite ?app_nil_r. reflexivity. Qed.

Lemma LO_when b m l ml :
  LogOnly m tt l ml -> LogOnly (when b m) tt (guard b l) (guard b ml).
Proof.
  intros H st. rewrite !guard_spec. destruct b; simpl; auto. rewrite upd_nil. reflexivity.
Qed.

Lemma LO_if {A} (b : bool) (m1 m2 : M A) x l1 ml1 l2 ml2 :
  LogOnly m1 x l1 ml1 -> LogOnly m2 x l2 ml2 ->
  LogOnly (if b then m1 else m2) x (guard b l1 ++ guard (negb b) l2)
          (guard b ml1 ++ guard (negb b) ml2).
Proof.
  intros H1 H2 st. rewrite !guard_spec. destruct b; simpl; rewrite ?app_nil_r; auto.
Qed.

Lemma LO_when_some o (f : Z -> M unit) l ml :
  (forall z, LogOnly (f z) tt (l z) (ml z)) ->
  LogOnly (when_some o f) tt (on_some o l) (on_some o ml).
Proof.
  intros H st. destruct o; [apply H|]. unfold when_some, on_some, ret. rewrite upd_nil. reflexivity.
Qed.

Lemma LO_when_truthy o (f : Z -> M unit) l ml :
  (forall z, LogOnly (f z) tt (l z) (ml z)) ->
  LogOnly (when_truthy o f) tt (on_some o (fun z => guard (negb (z =? 0)) (l z)))
          (on_some o (fun z => guard (negb (z =? 0)) (ml z))).
Proof.
  intros H st. destruct o.
  - apply LO_when. auto.
  - unfold when_truthy, on_some, ret. rewrite upd_nil. reflexivity.
Qed.

Lemma LO_on_num (d : jsv) (f : Z -> M unit) l ml :
  (forall z, LogOnly (f z) tt (l z) (ml z)) ->
  LogOnly (match d with JNum z => f z | _ => ret tt end) tt (on_num d l) (on_num d ml).
Proof.
  intros H st. destruct d; try apply H; unfold on_num, ret; rewrite upd_nil; reflexivity.
Qed.

End LogOnlyRules.

Ltac log_only :=
  repeat match goal with
  | |- LogOnly (bind _ _) _ _ _ => eapply LO_bind
  | |- LogOnly (when _ _) _ _ _ => eapply LO_when
  | |- LogOnly (if _ then _ else _) _ _ _ => eapply LO_if
  | |- LogOnly (when_some _ _) _ _ _ => eapply LO_when_some; intro
  | |- LogOnly (when_truthy _ _) _ _ _ => eapply LO_when_truthy; intro
  | |- LogOnly (match _ with JNum _ => _ | _ => _ end) _ _ _ => eapply LO_on_num; intro
  | |- LogOnly (setAttribute _ _ _) _ _ _ => apply LO_setAttribute
  | |- LogOnly (setStatus _ _ _) _ _ _ => apply LO_setStatus
  | |- LogOnly (endSpan _) _ _ _ => apply LO_endSpan
  | |- LogOnly (counterAdd _ _ _) _ _ _ => apply LO_counterAdd
  | |- LogOnly (histRecord _ _ _) _ _ _ => apply LO_histRecord
  | |- LogOnly (ret _) _ _ _ => apply LO_ret
  | |- LogOnly _ _ _ _ => progress cbv beta
  end.

Section LogFacts.
Context {A : Type}.

Lemma guard_nil (b : bool) : guard b (@nil A) = [].
Proof. rewrite guard_spec. destruct b; reflexivity. Qed.

Lemma on_num_nil (d : jsv) : on_num d (fun _ => @nil A) = [].
Proof. destruct d; reflexivity. Qed.

Lemma on_some_nil (o : option Z) : on_some o (fun _ => @nil A) = [].
Proof. destruct o; reflexivity. Qed.

Lemma Forall_guard (P : A -> Prop) b l : Forall P l -> Forall P (guard b l).
Proof. rewrite guard_spec. destruct b; auto. Qed.

Lemma Forall_on_num (P : A -> Prop) d f : (forall z, Forall P (f z)) -> Forall P (on_num d f).
Proof. destruct d; simpl; auto. Qed.

Lemma Forall_on_some (P : A -> Prop) o f : (forall z, Forall P (f z)) -> Forall P (on_some o f).
Proof. destruct o; simpl; auto. Qed.

End LogFacts.

Lemma writes_app s k l1 l2 : writes s k (l1 ++ l2) = writes s k l1 ++ writes s k l2.
Proof. apply flat_map_app. Qed.

Lemma writes_guard s k b l : writes s k (guard b l) = guard b (writes s k l).
Proof. rewrite !guard_spec. destruct b; reflexivity. Qed.

Lemma writes_on_num s k d f : writes s k (on_num d f) = on_num d (fun z => writes s k (f z)).
Proof. destruct d; reflexivity. Qed.

Lemma writes_on_some s k o f : writes s k (on_some o f) = on_some o (fun z => writes s k (f z)).
Proof. destruct o; reflexivity. Qed.

Arguments slice0 : simpl never.
Arguments js_to_string : simpl never.

Ltac writes_simpl :=
  rewrite ?writes_app, ?writes_guard, ?writes_on_num, ?writes_on_some;
  cbn -[guard slice0 js_to_string]; rewrite ?Nat.eqb_refl;
  cbn -[guard slice0 js_to_string];
  rewrite ?guard_nil, ?on_num_nil, ?on_some_nil, ?app_nil_r.

Ltac forall_log :=
  repeat first
    [ apply Forall_guard
    | apply Forall_app; split
    | apply Forall_on_num; intro
    | apply Forall_on_some; intro
    | apply Forall_cons; [simpl; reflexivity|]
    | apply Forall_nil ].


(** ** Computations that leave the state unchanged *)

Lemma P_ret {A} (x : A) : Pure (ret x).
Proof. intro; reflexivity. Qed.

Lemma P_throw {A} e : Pure (@throw A e).
Proof. intro; reflexivity. Qed.

Lemma P_gets {A} (f : state -> A) : Pure (gets f).
Proof. intro; reflexivity. Qed.

Lemma P_bind {A B} (m : M A) (k : A -> M B) :
  Pure m -> (forall x, Pure (k x)) -> Pure (bind m k).
Proof.
  intros Hm Hk st. unfold bind. specialize (Hm st).
  destruct (m st) as [[x|e] st']; simpl in Hm; subst; [apply Hk|reflexivity].
Qed.

Ltac pure :=
  repeat match goal with
  | |- Pure (bind _ _) => apply P_bind; [|intro]
  | |- Pure (ret _) => apply P_ret
  | |- Pure (throw _) => apply P_throw
  | |- Pure (gets _) => apply P_gets
  | |- Pure (if ?b then _ else _) => destruct b
  | |- Pure (match ?x with _ => _ end) => destruct x
  | |- Pure _ => progress (unfold iterate, js_filter, length_pos, filter_text_parts, message_text,
                              last_text, when)
  end.

Lemma turn_usage_pure d m : Pure (turn_usage d m).
Proof. unfold turn_usage. pure. Qed.

Lemma capture_pure cc m : Pure (capture cc m).
Proof. unfold capture. pure. Qed.

Lemma pure_run {A} (m : M A) st : Pure m -> exists r, m st = (r, st).
Proof. intros H. specialize (H st). destruct (m st) as [r st']. simpl in H. subst. eauto. Qed.

(** ** Content capture and the transcript *)






(** ** The turn-end handler *)

Lemma map_delete_absent {V} (k : jsv) (m : list (jsv * V)) :
  lookup k m = None -> map_delete k m = m.
Proof.
  induction m as [|[k' v] m IH]; simpl; auto.
  destruct (jsv_eqb k k'); [discriminate|]. simpl. intros H. rewrite IH; auto.
Qed.

Lemma getPendingUsage_spec k st :
  getPendingUsage k st =
    (Ok (lookup k (pendingUsageMap st)),
     with_pending (map_delete k (pendingUsageMap st)) st).
Proof.
  unfold getPendingUsage, bind, gets, modify, ret. simpl.
  destruct (lookup k (pendingUsageMap st)) eqn:E; auto.
  rewrite map_delete_absent by auto. destruct st; reflexivity.
Qed.



(** ** Computations that only log calls satisfying [P] *)

Section QuietRules.
Variable P : tcall -> Prop.








End QuietRules.



Lemma bind_modify {A} f (k : unit -> M A) st : bind (modify f) k st = k tt (f st).
Proof. reflexivity. Qed.

Lemma bind_gets {A B} (f : state -> A) (k : A -> M B) st : bind (gets f) k st = k (f st) st.
Proof. reflexivity. Qed.

Lemma bind_startSpan {A} nm kd at' p (k : span -> M A) st :
  bind (startSpan nm kd at' p) k st =
  k (next_span st)
    (mkState (sessionContextMap st) (activeAgentSpans st) (pendingUsageMap st)
             (S (next_span st)) (tlog st ++ [StartSpan (next_span st) nm kd at' p])
             (mlog st) (clock st)).
Proof. reflexivity. Qed.

Lemma call_handler (m : M unit) st :
  call (bind (try_catch m) (fun _ => ret JUndef)) st = Normal JUndef (snd (m st)).
Proof. unfold call, bind, try_catch. destruct (m st) as [[]]; reflexivity. Qed.



(** ** The turn-start handler *)

Lemma before_agent_start_new ev ctx st :
  lookup (resolve ev ctx "sessionKey") (sessionContextMap st) = None ->
  let r := next_span st in
  let k := resolve ev ctx "sessionKey" in
  call (on_before_agent_start ev ctx) st =
    Normal JUndef
      (mkState
         (map_set k (mkSTC r (Some r) (Some (S r)) (Some (Some (S r))) (clock st))
            (map_set k (mkSTC r (Some r) None None (clock st)) (sessionContextMap st)))
         (map_set k (S r) (activeAgentSpans st))
         (pendingUsageMap st) (S (S r))
         (tlog st ++ [StartSpan r "openclaw.request" SERVER (root_attrs ev ctx) ctx_active;
                      StartSpan (S r) "openclaw.agent.turn" INTERNAL (agent_attrs ev ctx) (Some r)])
         (mlog st) (clock st)).
Proof.
  intros H r k. unfold on_before_agent_start. cbv zeta. rewrite call_handler.
  rewrite bind_gets. rewrite H. destruct st. simpl.
  rewrite <- app_assoc. reflexivity.
Qed.

Lemma before_agent_start_existing ev ctx st c :
  lookup (resolve ev ctx "sessionKey") (sessionContextMap st) = Some c ->
  let a := next_span st in
  let k := resolve ev ctx "sessionKey" in
  call (on_before_agent_start ev ctx) st =
    Normal JUndef
      (mkState
         (map_set k (mkSTC (rootSpan c) (rootContext c) (Some a) (Some (Some a)) (startTime c))
            (sessionContextMap st))
         (map_set k a (activeAgentSpans st))
         (pendingUsageMap st) (S a)
         (tlog st ++ [StartSpan a "openclaw.agent.turn" INTERNAL (agent_attrs ev ctx) (rootContext c)])
         (mlog st) (clock st)).
Proof.
  intros H a k. unfold on_before_agent_start. cbv zeta. rewrite call_handler.
  rewrite bind_gets. rewrite H. destruct st. reflexivity.
Qed.

(** ** A run of tool events *)


(** ** Counting calls *)





(** ** The turn-end transcript *)









(** Claim C10: a turn-end whose session key has no stored context returns
    normally, consumes the pending usage record, writes no span call and
    no metric, and leaves the store unchanged. *)
Theorem agent_end_without_context : forall cc ev ctx st,
  lookup (resolve ev ctx "sessionKey") (sessionContextMap st) = None ->
  exists st',
    call (on_agent_end cc ev ctx) st = Normal JUndef st' /\
    pendingUsageMap st' = map_delete (resolve ev ctx "sessionKey") (pendingUsageMap st) /\
    lookup (resolve ev ctx "sessionKey") (pendingUsageMap st') = None /\
    sessionContextMap st' = sessionContextMap st /\
    (activeAgentSpans st' = activeAgentSpans st \/
     activeAgentSpans st' = map_delete (resolve ev ctx "sessionKey") (activeAgentSpans st)) /\
    tlog st' = tlog st /\ mlog st' = mlog st /\ next_span st' = next_span st.
Proof.
  intros cc ev ctx st Hnone.
  unfold on_agent_end. rewrite call_handler.
  cbv beta iota zeta delta [bind try_catch ret gets modify].
  rewrite getPendingUsage_spec. cbv beta iota zeta.
  remember (resolve ev ctx "sessionKey") as k eqn:Ek.
  destruct (pure_run (turn_usage (lookup k (pendingUsageMap st)) (js_or (opt_get ev "messages") (JArr [])))
              (with_pending (map_delete k (pendingUsageMap st)) st) (turn_usage_pure _ _))
    as [[[[[[[i o] r] w] model] cost]|e] Ht]; rewrite Ht; cbv beta iota zeta.
  - destruct (pure_run (capture cc (js_or (opt_get ev "messages") (JArr [])))
                (with_pending (map_delete k (pendingUsageMap st)) st) (capture_pure _ _))
      as [[[inC outC]|e] Hc]; rewrite Hc; cbv beta iota zeta.
    + change (sessionContextMap (with_pending ?p st)) with (sessionContextMap st).
      rewrite Hnone. cbv beta iota zeta.
      eexists; split; [reflexivity|]. destruct st as [cm am pm ns tl ml ck]; cbn [snd sessionContextMap activeAgentSpans pendingUsageMap next_span tlog mlog clock with_pending with_ctxmap with_active] in *.
      rewrite (map_delete_absent _ _ Hnone).
      repeat split; auto using lookup_map_delete_same.
    + eexists; split; [reflexivity|]. destruct st as [cm am pm ns tl ml ck]; cbn [snd sessionContextMap activeAgentSpans pendingUsageMap next_span tlog mlog clock with_pending with_ctxmap with_active].
      repeat split; auto using lookup_map_delete_same.
  - eexists; split; [reflexivity|]. destruct st as [cm am pm ns tl ml ck]; cbn [snd sessionContextMap activeAgentSpans pendingUsageMap next_span tlog mlog clock with_pending with_ctxmap with_active].
    repeat split; auto using lookup_map_delete_same.
Qed.

Lemma agent_end_without_context_witness :
  let st := run env0 [EvModelUsage d_s1] init_state in
  lookup (resolve (s1_end s1_transcript) (obj []) "sessionKey") (sessionContextMap st) = None /\
  exists st',
    call (on_agent_end false (s1_end s1_transcript) (obj [])) st = Normal JUndef st' /\
    pendingUsageMap st' = map_delete (resolve (s1_end s1_transcript) (obj []) "sessionKey") (pendingUsageMap st) /\
    lookup (resolve (s1_end s1_transcript) (obj []) "sessionKey") (pendingUsageMap st') = None /\
    sessionContextMap st' = sessionContextMap st /\
    (activeAgentSpans st' = activeAgentSpans st \/
     activeAgentSpans st' = map_delete (resolve (s1_end s1_transcript) (obj []) "sessionKey") (activeAgentSpans st)) /\
    tlog st' = tlog st /\ mlog st' = mlog st /\ next_span st' = next_span st.
Proof.
  intros st.
  assert (H : lookup (resolve (s1_end s1_transcript) (obj []) "sessionKey") (sessionContextMap st) = None)
    by reflexivity.
  split; [exact H|].
  exact (agent_end_without_context false (s1_end s1_transcript) (obj []) st H).
Defined.


Lemma writes_end_span a k l : writes a k (l ++ [EndSpan a]) = writes a k l.
Proof. rewrite writes_app, app_nil_r. reflexivity. Qed.









Lemma fallback_sums_all_example :
  sum_field usage_aliases_input (assistant_usages s1_transcript_multi_l) = 30 /\
  sum_field usage_aliases_output (assistant_usages s1_transcript_multi_l) = 12 /\
  sum_field ["cacheRead"] (assistant_usages s1_transcript_multi_l) = 3.
Proof. vm_compute. auto. Qed.

Lemma bind_LO {A B} (m : M A) (k : A -> M B) x l ml st :
  LogOnly m x l ml -> bind m k st = k x (upd st l ml).
Proof. intros H. unfold bind. rewrite H. reflexivity. Qed.

Lemma on_some_guard_nil {A} o (f : Z -> bool) :
  on_some o (fun z => guard (f z) (@nil A)) = [].
Proof. destruct o; simpl; [apply guard_nil | reflexivity]. Qed.

Lemma model_usage_live d st a :
  de_type d = "model.usage" ->
  lookup (JStr (or_str (de_sessionKey d) "unknown")) (activeAgentSpans st) = Some a ->
  exists l ml rec,
    on_model_usage d st =
      (Ok tt, mkState (sessionContextMap st) (activeAgentSpans st)
                (map_delete (JStr (or_str (de_sessionKey d) "unknown"))
                   (map_set (JStr (or_str (de_sessionKey d) "unknown")) rec (pendingUsageMap st)))
                (next_span st) (tlog st ++ l) (mlog st ++ ml) (clock st)) /\
    Forall (quiet_on a) l /\
    writes a "gen_ai.usage.input_tokens" l =
      on_some (u_input (match de_usage d with Some u => u | None => empty_usage end))
        (fun n => [JNum n]) /\
    writes a "gen_ai.usage.total_tokens" l =
      on_some (u_total (match de_usage d with Some u => u | None => empty_usage end))
        (fun n => [JNum n]).
Proof.
  intros Ht Ha. unfold on_model_usage. rewrite Ht, String.eqb_refl. cbv zeta.
  cbn [negb]. rewrite bind_modify.
  do 8 (erewrite bind_LO; [|log_only]; cbv beta).
  rewrite !upd_upd, bind_gets.
  change (activeAgentSpans (upd (with_pending ?p st) ?l ?ml)) with (activeAgentSpans st).
  rewrite Ha.
  erewrite bind_LO; [|unfold enrichSpanWithUsage; log_only]. cbv beta.
  rewrite upd_upd. unfold modify. destruct st as [cm am pm ns tl ml ck].
  unfold upd, with_pending. cbn [sessionContextMap activeAgentSpans pendingUsageMap next_span tlog mlog clock].
  do 3 eexists. split.
  { rewrite <- !app_assoc. reflexivity. }
  rewrite ?on_some_guard_nil, ?on_some_nil, ?guard_nil, ?app_nil_l.
  split; [forall_log|].
  split; writes_simpl; destruct (match de_usage d with Some u => u | None => empty_usage end);
    cbn [u_input u_total]; first [destruct u_input0 | destruct u_total0]; writes_simpl; reflexivity.
Qed.

Lemma sweep_spec t es : forall st,
  sweep t es st =
    (Ok tt, mkState (sweep_map t es (sessionContextMap st)) (activeAgentSpans st)
              (pendingUsageMap st) (next_span st) (tlog st ++ sweep_log t es)
              (mlog st) (clock st)).
Proof.
  induction es as [|[key c] es IH]; intros st.
  - destruct st. cbn. rewrite app_nil_r. reflexivity.
  - cbn [sweep]. unfold sweep_log, sweep_map. cbn [flat_map fold_left snd fst].
    fold (sweep_log t es). fold (sweep_map t es).
    unfold stale_log, is_stale. rewrite guard_spec.
    destruct (t - startTime c >? maxAge).
    + unfold when at 1. unfold bind at 1 2.
      unfold try_catch.
      destruct (agentSpan c) as [a|]; cbn [same_span negb];
        [destruct (Nat.eqb (rootSpan c) a)|]; rewrite ?guard_spec; cbn [negb];
        cbv [bind when ret endSpan modify log_t]; rewrite IH; destruct st; cbn;
        rewrite <- ?app_assoc; reflexivity.
    + unfold when at 1. unfold bind at 1. cbv [ret]. rewrite IH. rewrite app_nil_l. reflexivity.
Qed.

Lemma lookup_delete_none {V} k k' (m : list (jsv * V)) :
  lookup k m = None -> lookup k (map_delete k' m) = None.
Proof.
  intros H. destruct (jsv_eqb k' k) eqn:E.
  - apply jsv_eqb_eq in E. subst. apply lookup_map_delete_same.
  - rewrite lookup_map_delete_other; auto.
    intros ->. rewrite jsv_eqb_refl in E. discriminate.
Qed.

Lemma sweep_map_none t k es : forall m,
  lookup k m = None -> lookup k (sweep_map t es m) = None.
Proof.
  induction es as [|[k' c'] es IH]; intros m H; cbn; auto.
  apply IH. destruct (is_stale t c'); auto. apply lookup_delete_none. exact H.
Qed.

Lemma sweep_map_removes t k c es : forall m,
  In (k, c) es -> is_stale t c = true -> lookup k (sweep_map t es m) = None.
Proof.
  induction es as [|[k' c'] es IH]; intros m Hin Hs; [destruct Hin|].
  destruct Hin as [E|Hin].
  - inversion E; subst. cbn. rewrite Hs. apply sweep_map_none, lookup_map_delete_same.
  - cbn. apply IH; auto.
Qed.

Lemma cleanup_spec E st :
  step E st EvCleanup =
    mkState (sweep_map (clock st) (sessionContextMap st) (sessionContextMap st))
      (activeAgentSpans st) (pendingUsageMap st) (next_span st)
      (tlog st ++ sweep_log (clock st) (sessionContextMap st)) (mlog st) (clock st).
Proof.
  change (step E st EvCleanup) with (snd (cleanup_stale st)).
  unfold cleanup_stale, now. rewrite !bind_gets. rewrite sweep_spec. reflexivity.
Qed.

(** Claim C6: a stored context older than five minutes at a sweep has its
    agent span ended, and its root span when distinct, and is removed; a
    later turn-start with the same key starts a new root span with a
    fresh id. *)
Theorem reaper_closes_stale : forall E st k c,
  lookup k (sessionContextMap st) = Some c ->
  clock st - startTime c > maxAge ->
  (rootSpan c < next_span st)%nat ->
  let st1 := step E st EvCleanup in
  (forall a, agentSpan c = Some a -> In (EndSpan a) (tlog st1)) /\
  (negb (same_span (rootSpan c) (agentSpan c)) = true -> In (EndSpan (rootSpan c)) (tlog st1)) /\
  lookup k (sessionContextMap st1) = None /\
  forall ev ctx, resolve ev ctx "sessionKey" = k ->
    let st2 := step E st1 (EvBeforeAgentStart ev ctx) in
    tlog st2 = tlog st1 ++
      [StartSpan (next_span st) "openclaw.request" SERVER (root_attrs ev ctx) ctx_active;
       StartSpan (S (next_span st)) "openclaw.agent.turn" INTERNAL (agent_attrs ev ctx)
         (Some (next_span st))] /\
    next_span st <> rootSpan c /\
    exists c', lookup k (sessionContextMap st2) = Some c' /\ rootSpan c' = next_span st.
Proof.
  intros E st k c Hc Hs Hr st1.
  assert (Hs' : is_stale (clock st) c = true) by (apply Z.gtb_lt; lia).
  pose proof (lookup_in _ _ _ Hc) as Hin.
  assert (Hsub : forall x, In x (stale_log (clock st) c) -> In x (tlog st1)).
  { intros x Hx. unfold st1. rewrite cleanup_spec. cbn [tlog].
    apply in_or_app. right. unfold sweep_log. apply in_flat_map.
    exists (k, c). split; auto. }
  unfold stale_log in Hsub. rewrite Hs', guard_spec in Hsub.
  assert (Hnone : lookup k (sessionContextMap st1) = None).
  { unfold st1. rewrite cleanup_spec. cbn [sessionContextMap].
    eapply sweep_map_removes; eauto. }
  split; [|split; [|split]].
  - intros a Ha. apply Hsub. rewrite Ha. left. reflexivity.
  - intros Hd. apply Hsub. rewrite Hd, guard_spec. apply in_or_app. right. left. reflexivity.
  - exact Hnone.
  - intros ev ctx Hk st2. subst k.
    unfold st2. change (step E st1 (EvBeforeAgentStart ev ctx))
      with (after (call (on_before_agent_start ev ctx) st1)).
    rewrite (before_agent_start_new ev ctx st1 Hnone).
    assert (Hn : next_span st1 = next_span st) by (unfold st1; rewrite cleanup_spec; reflexivity).
    cbn [after tlog sessionContextMap]. rewrite Hn. split; [reflexivity|]. split; [lia|].
    eexists. split; [apply lookup_map_set_same|reflexivity].
Qed.

Lemma reaper_closes_stale_witness :
  lookup (JStr "s1") (sessionContextMap c6_state) = Some c4_ctx /\
  clock c6_state - startTime c4_ctx > maxAge /\
  (rootSpan c4_ctx < next_span c6_state)%nat /\
  let st1 := step env0 c6_state EvCleanup in
  (forall a, agentSpan c4_ctx = Some a -> In (EndSpan a) (tlog st1)) /\
  (negb (same_span (rootSpan c4_ctx) (agentSpan c4_ctx)) = true ->
     In (EndSpan (rootSpan c4_ctx)) (tlog st1)) /\
  lookup (JStr "s1") (sessionContextMap st1) = None /\
  forall ev ctx, resolve ev ctx "sessionKey" = JStr "s1" ->
    let st2 := step env0 st1 (EvBeforeAgentStart ev ctx) in
    tlog st2 = tlog st1 ++
      [StartSpan (next_span c6_state) "openclaw.request" SERVER (root_attrs ev ctx) ctx_active;
       StartSpan (S (next_span c6_state)) "openclaw.agent.turn" INTERNAL (agent_attrs ev ctx)
         (Some (next_span c6_state))] /\
    next_span c6_state <> rootSpan c4_ctx /\
    exists c', lookup (JStr "s1") (sessionContextMap st2) = Some c' /\
               rootSpan c' = next_span c6_state.
Proof.
  assert (H1 : lookup (JStr "s1") (sessionContextMap c6_state) = Some c4_ctx) by reflexivity.
  assert (H2 : clock c6_state - startTime c4_ctx > maxAge) by reflexivity.
  assert (H3 : (rootSpan c4_ctx < next_span c6_state)%nat) by (apply Nat.ltb_lt; reflexivity).
  split; [exact H1|]. split; [exact H2|]. split; [exact H3|].
  exact (reaper_closes_stale env0 c6_state (JStr "s1") c4_ctx H1 H2 H3).
Defined.

(** Claim C9: the sweep leaves the active-agent-spans table unchanged; a
    usage report arriving after a session's context was reaped still finds
    the (already ended) agent span, writes its attributes there, and
    leaves no pending usage record. *)
Theorem reap_keeps_side_table : forall E st k c a d,
  lookup (JStr k) (sessionContextMap st) = Some c ->
  clock st - startTime c > maxAge ->
  agentSpan c = Some a ->
  lookup (JStr k) (activeAgentSpans st) = Some a ->
  de_type d = "model.usage" ->
  or_str (de_sessionKey d) "unknown" = k ->
  let st1 := step E st EvCleanup in
  let st2 := step E st1 (EvModelUsage d) in
  lookup (JStr k) (sessionContextMap st1) = None /\
  activeAgentSpans st1 = activeAgentSpans st /\
  In (EndSpan a) (tlog st1) /\
  lookup (JStr k) (pendingUsageMap st2) = None /\
  exists l,
    tlog st2 = tlog st1 ++ l /\
    Forall (quiet_on a) l /\
    writes a "gen_ai.usage.input_tokens" l =
      on_some (u_input (match de_usage d with Some u => u | None => empty_usage end))
        (fun n => [JNum n]) /\
    writes a "gen_ai.usage.total_tokens" l =
      on_some (u_total (match de_usage d with Some u => u | None => empty_usage end))
        (fun n => [JNum n]).
Proof.
  intros E st k c a d Hc Hs Ha Hact Ht Hk st1 st2.
  assert (Hs' : is_stale (clock st) c = true) by (apply Z.gtb_lt; lia).
  assert (E1 : st1 = mkState (sweep_map (clock st) (sessionContextMap st) (sessionContextMap st))
      (activeAgentSpans st) (pendingUsageMap st) (next_span st)
      (tlog st ++ sweep_log (clock st) (sessionContextMap st)) (mlog st) (clock st))
    by apply cleanup_spec.
  assert (Hact1 : lookup (JStr (or_str (de_sessionKey d) "unknown")) (activeAgentSpans st1) = Some a)
    by (rewrite Hk, E1; exact Hact).
  destruct (model_usage_live d st1 a Ht Hact1) as (l & ml & rec & Em & Fq & Hi & Htot).
  assert (E2 : st2 = snd (on_model_usage d st1)) by reflexivity.
  rewrite Em in E2. cbn [snd] in E2.
  split; [|split; [|split; [|split]]].
  - rewrite E1. cbn [sessionContextMap]. eapply sweep_map_removes; [apply lookup_in; exact Hc|exact Hs'].
  - rewrite E1. reflexivity.
  - rewrite E1. cbn [tlog]. apply in_or_app. right. unfold sweep_log. apply in_flat_map.
    exists (JStr k, c). split; [apply lookup_in; exact Hc|].
    cbn [snd]. unfold stale_log. rewrite Hs', guard_spec, Ha. left. reflexivity.
  - rewrite E2. cbn [pendingUsageMap]. rewrite <- Hk. apply lookup_map_delete_same.
  - exists l. rewrite E2. cbn [tlog]. auto.
Qed.

Lemma reap_keeps_side_table_witness :
  lookup (JStr "s1") (sessionContextMap c6_state) = Some c4_ctx /\
  clock c6_state - startTime c4_ctx > maxAge /\
  agentSpan c4_ctx = Some 1%nat /\
  lookup (JStr "s1") (activeAgentSpans c6_state) = Some 1%nat /\
  de_type d_s1_late = "model.usage" /\
  or_str (de_sessionKey d_s1_late) "unknown" = "s1" /\
  let st1 := step env0 c6_state EvCleanup in
  let st2 := step env0 st1 (EvModelUsage d_s1_late) in
  lookup (JStr "s1") (sessionContextMap st1) = None /\
  activeAgentSpans st1 = activeAgentSpans c6_state /\
  In (EndSpan 1%nat) (tlog st1) /\
  lookup (JStr "s1") (pendingUsageMap st2) = None /\
  exists l,
    tlog st2 = tlog st1 ++ l /\
    Forall (quiet_on 1%nat) l /\
    writes 1%nat "gen_ai.usage.input_tokens" l =
      on_some (u_input (match de_usage d_s1_late with Some u => u | None => empty_usage end))
        (fun n => [JNum n]) /\
    writes 1%nat "gen_ai.usage.total_tokens" l =
      on_some (u_total (match de_usage d_s1_late with Some u => u | None => empty_usage end))
        (fun n => [JNum n]).
Proof.
  assert (H1 : lookup (JStr "s1") (sessionContextMap c6_state) = Some c4_ctx) by reflexivity.
  assert (H2 : clock c6_state - startTime c4_ctx > maxAge) by reflexivity.
  assert (H3 : agentSpan c4_ctx = Some 1%nat) by reflexivity.
  assert (H4 : lookup (JStr "s1") (activeAgentSpans c6_state) = Some 1%nat) by reflexivity.
  assert (H5 : de_type d_s1_late = "model.usage") by reflexivity.
  assert (H6 : or_str (de_sessionKey d_s1_late) "unknown" = "s1") by reflexivity.
  split; [exact H1|]. split; [exact H2|]. split; [exact H3|]. split; [exact H4|].
  split; [exact H5|]. split; [exact H6|].
  exact (reap_keeps_side_table env0 c6_state "s1" c4_ctx 1%nat d_s1_late H1 H2 H3 H4 H5 H6).
Defined.

(** Claim C2: the usage report arrives while the turn is live, so the
    listener records the usage metrics and removes the pending record;
    the turn-end then finds no record and records them again from the
    transcript. *)
Lemma metrics_recorded_twice :
  let st := run env0 [EvBeforeAgentStart s1_start (obj []); EvModelUsage d_s1;
                      EvAgentEnd (s1_end s1_transcript) (obj [])] init_state in
  count_metric "llmRequests" (mlog st) = 2%nat /\
  count_metric "tokensPrompt" (mlog st) = 2%nat /\
  count_metric "tokensCompletion" (mlog st) = 2%nat /\
  count_metric "tokensTotal" (mlog st) = 2%nat.
Proof. vm_compute. repeat split. Qed.

(** Extra X1: [getPendingUsage] returns the record pending for the key and
    removes it, so a second call for the same key returns nothing; the other
    keys' records, both session tables and the telemetry logs are left as they
    are. *)
Theorem getPendingUsage_consumes k st :
  let st1 := snd (getPendingUsage k st) in
  fst (getPendingUsage k st) = Ok (lookup k (pendingUsageMap st)) /\
  fst (getPendingUsage k st1) = Ok None /\
  (forall k', k' <> k -> lookup k' (pendingUsageMap st1) = lookup k' (pendingUsageMap st)) /\
  sessionContextMap st1 = sessionContextMap st /\
  activeAgentSpans st1 = activeAgentSpans st /\
  tlog st1 = tlog st /\ mlog st1 = mlog st.
Proof.
  cbv zeta. rewrite !getPendingUsage_spec. cbn [fst snd pendingUsageMap with_pending].
  repeat split; try reflexivity.
  - rewrite lookup_map_delete_same. reflexivity.
  - intros k' Hk. apply lookup_map_delete_other. exact Hk.
Qed.

Lemma metric_total_app n l1 l2 :
  metric_total n (l1 ++ l2) = metric_total n l1 + metric_total n l2.
Proof.
  induction l1 as [|c l1 IH]; simpl; [reflexivity|].
  rewrite IH. destruct c; [destruct (String.eqb name n)|]; lia.
Qed.

Lemma metric_total_guard n b l :
  metric_total n (guard b l) = if b then metric_total n l else 0.
Proof. rewrite guard_spec. destruct b; reflexivity. Qed.

Lemma metric_total_on_some n o f :
  metric_total n (on_some o f) = match o with Some z => metric_total n (f z) | None => 0 end.
Proof. destruct o; reflexivity. Qed.


Lemma metric_total_truthy n n' o a :
  metric_total n (on_some o (fun z => guard (negb (z =? 0)) [CounterAdd n' z a])) =
  if String.eqb n' n then or0 o else 0.
Proof.
  destruct o as [z|]; cbn [on_some or0]; rewrite ?metric_total_guard;
    [|destruct (String.eqb n' n); reflexivity].
  destruct (Z.eqb_spec z 0); cbn; destruct (String.eqb n' n); lia.
Qed.

Lemma metric_total_positive n n' o a :
  metric_total n (on_some o (fun z => guard (0 <? z) [CounterAdd n' z a])) =
  if String.eqb n' n then Z.max 0 (or0 o) else 0.
Proof.
  destruct o as [z|]; cbn [on_some or0]; rewrite ?metric_total_guard;
    [|destruct (String.eqb n' n); reflexivity].
  destruct (Z.ltb_spec 0 z); cbn; destruct (String.eqb n' n); lia.
Qed.

Lemma metric_total_hist n o f :
  (forall z, metric_total n (f z) = 0) -> metric_total n (on_some o f) = 0.
Proof. destruct o; simpl; auto. Qed.

Ltac usage_totals :=
  rewrite ?app_nil_r, !metric_total_app, !metric_total_truthy, !metric_total_positive,
    !(metric_total_hist _ (de_durationMs _)) by reflexivity;
  cbn -[or0 Z.max]; repeat split; lia.

Lemma model_usage_run d st :
  de_type d = "model.usage" ->
  exists l ml,
    on_model_usage d st =
      (Ok tt, mkState (sessionContextMap st) (activeAgentSpans st)
                (match lookup (usage_key d) (activeAgentSpans st) with
                 | Some _ => map_delete (usage_key d) (map_set (usage_key d) (usage_record d) (pendingUsageMap st))
                 | None => map_set (usage_key d) (usage_record d) (pendingUsageMap st)
                 end)
                (next_span st) (tlog st ++ l) (mlog st ++ ml) (clock st)) /\
    (match lookup (usage_key d) (activeAgentSpans st) with
     | Some a => Forall (quiet_on a) l
     | None => l = []
     end) /\
    metric_total "tokensPrompt" ml =
      or0 (u_input (usage_of d)) + or0 (u_cacheRead (usage_of d)) + or0 (u_cacheWrite (usage_of d)) /\
    metric_total "tokensCompletion" ml = or0 (u_output (usage_of d)) /\
    metric_total "tokensTotal" ml = or0 (u_total (usage_of d)) /\
    metric_total "llmRequests" ml = 1 /\
    metric_total "openclaw.llm.cost.usd" ml = Z.max 0 (or0 (de_costUsd d)).
Proof.
  intros Ht. unfold on_model_usage. rewrite Ht, String.eqb_refl. cbv zeta.
  cbn [negb]. rewrite bind_modify.
  do 8 (erewrite bind_LO; [|log_only]; cbv beta).
  rewrite !upd_upd, bind_gets.
  change (activeAgentSpans (upd (with_pending ?p st) ?l ?ml)) with (activeAgentSpans st).
  fold (usage_key d). fold (usage_of d).
  destruct (lookup (usage_key d) (activeAgentSpans st)) as [a|] eqn:Ea.
  - erewrite bind_LO; [|unfold enrichSpanWithUsage; log_only]. cbv beta.
    rewrite upd_upd. unfold modify. destruct st as [cm am pm ns tl ml ck].
    unfold upd, with_pending.
    cbn [sessionContextMap activeAgentSpans pendingUsageMap next_span tlog mlog clock].
    do 2 eexists. split.
    { rewrite <- !app_assoc. reflexivity. }
    rewrite ?on_some_guard_nil, ?on_some_nil, ?guard_nil, ?app_nil_l.
    split; [forall_log|].
    usage_totals.
  - unfold ret. destruct st as [cm am pm ns tl ml ck].
    unfold upd, with_pending.
    cbn [sessionContextMap activeAgentSpans pendingUsageMap next_span tlog mlog clock].
    do 2 eexists. split.
    { rewrite <- ?app_assoc. reflexivity. }
    rewrite ?on_some_guard_nil, ?on_some_nil, ?guard_nil, ?app_nil_l.
    split; [reflexivity|].
    usage_totals.
Qed.


Lemma LO_apply_ops n ops :
  exists l, LogOnly (apply_ops n ops) tt l [] /\ Forall (quiet_on n) l.
Proof.
  induction ops as [|[k v|c m] ops [l [IH F]]]; cbn [apply_ops].
  - exists []. split; [apply LO_ret|constructor].
  - exists (SetAttr n k v :: l). split; [|constructor; [reflexivity|exact F]].
    change (SetAttr n k v :: l) with ([SetAttr n k v] ++ l).
    change (@nil mcall) with (@nil mcall ++ []).
    eapply LO_bind; [apply LO_setAttribute|exact IH].
  - exists (SetStatus n c m :: l). split; [|constructor; [reflexivity|exact F]].
    change (SetStatus n c m :: l) with ([SetStatus n c m] ++ l).
    change (@nil mcall) with (@nil mcall ++ []).
    eapply LO_bind; [apply LO_setStatus|exact IH].
Qed.

Lemma LO_log_metrics ms : LogOnly (log_metrics ms) tt [] ms.
Proof.
  induction ms as [|c ms IH]; cbn [log_metrics]; [apply LO_ret|].
  change (c :: ms) with ([c] ++ ms). change (@nil tcall) with (@nil tcall ++ []).
  eapply LO_bind; [|exact IH].
  intros []. unfold upd; simpl. rewrite app_nil_r. reflexivity.
Qed.

Lemma LO_run_security n ops ms det :
  exists l, LogOnly (run_security n (SecReturns ops ms det)) det l ms /\ Forall (quiet_on n) l.
Proof.
  destruct (LO_apply_ops n ops) as [l [H F]]. exists l. split; [|exact F].
  intros st. cbn [run_security]. unfold bind. rewrite H, (LO_log_metrics ms).
  unfold ret. rewrite upd_upd, app_nil_r. reflexivity.
Qed.

Lemma LO_snd {A} (m : M A) x l ml st : LogOnly m x l ml -> snd (m st) = upd st l ml.
Proof. intros H. rewrite H. reflexivity. Qed.

(** Extra X5: when the security check of the message text does not throw,
    [message_received] starts the inbound message span, makes only attribute
    and status writes on it, sets it OK and ends it, and counts the message
    once under its channel; the session tables are untouched. *)
Theorem message_received_closes cms ev ctx st :
  let text := js_or (opt_get ev "text") (js_or (opt_get ev "message") (JStr "")) in
  let channel := js_or (opt_get ev "channel") (JStr "unknown") in
  let n := next_span st in
  (forall s, text = JStr s -> s <> "" -> cms text (resolve ev ctx "sessionKey") <> SecThrows) ->
  exists attrs L ml,
    call (on_message_received cms ev ctx) st =
      Normal JUndef
        (mkState (sessionContextMap st) (activeAgentSpans st) (pendingUsageMap st) (S n)
           (tlog st ++ StartSpan n "openclaw.message.received" SERVER attrs ctx_active ::
                       L ++ [SetStatus n STATUS_OK None; EndSpan n])
           (mlog st ++ ml ++ [CounterAdd "messagesReceived" 1 [("openclaw.message.channel", channel)]])
           (clock st)) /\
    Forall (quiet_on n) L.
Proof.
  intros text channel n H. subst text channel n.
  unfold on_message_received. cbv zeta. rewrite call_handler, bind_startSpan.
  set (attrs := [("openclaw.message.channel", js_or (opt_get ev "channel") (JStr "unknown"));
                 ("openclaw.session.key", resolve ev ctx "sessionKey");
                 ("openclaw.message.direction", JStr "inbound");
                 ("openclaw.message.from",
                   js_or (opt_get ev "from") (js_or (opt_get ev "senderId") (JStr "unknown")))]).
  assert (Hsec : exists L ml,
    LogOnly (match js_or (opt_get ev "text") (js_or (opt_get ev "message") (JStr "")) with
             | JStr s => when (negb (String.eqb s ""))
                  (_ <- run_security (next_span st)
                          (cms (js_or (opt_get ev "text") (js_or (opt_get ev "message") (JStr "")))
                             (resolve ev ctx "sessionKey")) ;; ret tt)
             | _ => ret tt
             end) tt L ml /\ Forall (quiet_on (next_span st)) L).
  { destruct (js_or (opt_get ev "text") (js_or (opt_get ev "message") (JStr ""))) eqn:Et;
      try (exists [], []; split; [apply LO_ret|constructor]).
    destruct (String.eqb_spec s "") as [->|Hs].
    - exists [], []. split; [apply LO_ret|constructor].
    - specialize (H s eq_refl Hs).
      destruct (cms (JStr s) (resolve ev ctx "sessionKey")) as [|ops ms det] eqn:Ec; [congruence|].
      destruct (LO_run_security (next_span st) ops ms det) as [l [HL F]].
      exists l, ms. split; [|exact F].
      intro st'. cbv [when negb]. unfold bind. rewrite HL. reflexivity. }
  destruct Hsec as (L & ml & HL & F).
  erewrite bind_LO; [|exact HL].
  erewrite LO_snd; [|log_only].
  exists attrs, L, ml. split; [|exact F].
  destruct st as [cm am pm ns tl ml0 ck]; unfold upd.
  cbn [sessionContextMap activeAgentSpans pendingUsageMap next_span tlog mlog clock app].
  rewrite <- !app_assoc. cbn [app]. reflexivity.
Qed.

(** Extra X6: when the security check of a non-empty message text throws, the
    handler's catch swallows it: the message span is started and never ended,
    and no message is counted. *)
Theorem message_received_security_throws cms ev ctx st s :
  js_or (opt_get ev "text") (js_or (opt_get ev "message") (JStr "")) = JStr s ->
  s <> "" ->
  cms (JStr s) (resolve ev ctx "sessionKey") = SecThrows ->
  exists attrs,
    call (on_message_received cms ev ctx) st =
      Normal JUndef
        (mkState (sessionContextMap st) (activeAgentSpans st) (pendingUsageMap st)
           (S (next_span st))
           (tlog st ++ [StartSpan (next_span st) "openclaw.message.received" SERVER attrs ctx_active])
           (mlog st) (clock st)).
Proof.
  intros Et Hs Ec.
  unfold on_message_received. cbv zeta. rewrite call_handler, bind_startSpan.
  rewrite Et. apply (proj2 (String.eqb_neq s "")) in Hs. rewrite Hs. rewrite Ec.
  eexists. reflexivity.
Qed.






























Lemma K_ret {A} (x : A) : Keeps (ret x).
Proof. intro; split; reflexivity. Qed.

Lemma K_throw {A} e : Keeps (@throw A e).
Proof. intro; split; reflexivity. Qed.

Lemma K_gets {A} (f : state -> A) : Keeps (gets f).
Proof. intro; split; reflexivity. Qed.

Lemma K_modify f :
  (forall st, sessionContextMap (f st) = sessionContextMap st /\
              activeAgentSpans (f st) = activeAgentSpans st) -> Keeps (modify f).
Proof. intros H st. apply H. Qed.

Lemma K_startSpan nm kd at' p : Keeps (startSpan nm kd at' p).
Proof. intro; split; reflexivity. Qed.

Lemma K_bind {A B} (m : M A) (k : A -> M B) :
  Keeps m -> (forall x, Keeps (k x)) -> Keeps (bind m k).
Proof.
  intros Hm Hk st. unfold bind. destruct (Hm st) as [E1 E2].
  destruct (m st) as [[x|e] st']; cbn [snd] in *.
  - destruct (Hk x st') as [E3 E4]. split; congruence.
  - split; assumption.
Qed.

Lemma K_try_catch (m : M unit) : Keeps m -> Keeps (try_catch m).
Proof.
  intros Hm st. unfold try_catch. destruct (Hm st) as [E1 E2].
  destruct (m st) as [[] st']; cbn [snd] in *; split; assumption.
Qed.

Lemma K_apply_ops n ops : Keeps (apply_ops n ops).
Proof.
  induction ops as [|[k v|c m] ops IH]; cbn [apply_ops]; [apply K_ret| |];
    (apply K_bind; [apply K_modify; intros []; split; reflexivity|intros; exact IH]).
Qed.

Lemma K_log_metrics ms : Keeps (log_metrics ms).
Proof.
  induction ms as [|c ms IH]; cbn [log_metrics]; [apply K_ret|].
  apply K_bind; [apply K_modify; intros []; split; reflexivity|intros; exact IH].
Qed.

Ltac keeps_step :=
  match goal with
  | |- Keeps (bind _ _) => apply K_bind; [|intro]
  | |- Keeps (try_catch _) => apply K_try_catch
  | |- Keeps (ret _) => apply K_ret
  | |- Keeps (throw _) => apply K_throw
  | |- Keeps (gets _) => apply K_gets
  | |- Keeps (modify _) => apply K_modify; intros []; split; reflexivity
  | |- Keeps (startSpan _ _ _ _) => apply K_startSpan
  | |- Keeps (apply_ops _ _) => apply K_apply_ops
  | |- Keeps (log_metrics _) => apply K_log_metrics
  | |- Keeps (if ?b then _ else _) => destruct b
  | |- Keeps (match ?x with _ => _ end) => destruct x
  | |- Keeps _ =>
      progress (unfold when, when_some, when_truthy, setAttribute, setStatus, endSpan,
                       counterAdd, histRecord, now, getPendingUsage, enrichSpanWithUsage,
                       run_security, filter_text_parts, iterate, js_filter, message_text,
                       last_text, capture, length_pos, turn_usage, end_agent_span, end_root_span)
  | |- Keeps _ => progress cbv zeta
  end.
Ltac keeps := repeat keeps_step.

Lemma KD_keeps k {A} (m : M A) : Keeps m -> KeepsOrDrops k m.
Proof. intros H st. left. apply H. Qed.

Lemma KD_bind k {A B} (m : M A) (f : A -> M B) :
  Keeps m -> (forall x, KeepsOrDrops k (f x)) -> KeepsOrDrops k (bind m f).
Proof.
  intros Hm Hf st. unfold bind. destruct (Hm st) as [E1 E2].
  destruct (m st) as [[x|e] st']; cbn [snd] in *.
  - rewrite <- E1, <- E2. apply Hf.
  - left; split; assumption.
Qed.

Lemma KD_bind_keeps k {A B} (m : M A) (f : A -> M B) :
  KeepsOrDrops k m -> (forall x, Keeps (f x)) -> KeepsOrDrops k (bind m f).
Proof.
  intros Hm Hf st. unfold bind. destruct (Hm st) as [[E1 E2]|[E1 E2]];
    destruct (m st) as [[x|e] st']; cbn [snd] in *;
    try (destruct (Hf x st') as [E3 E4]); [left|left|right|right]; split; congruence.
Qed.

Lemma KD_try_catch k (m : M unit) : KeepsOrDrops k m -> KeepsOrDrops k (try_catch m).
Proof.
  intros Hm st. unfold try_catch. destruct (Hm st) as [H|H];
    destruct (m st) as [[] st']; cbn [snd] in *; auto.
Qed.

Lemma KD_drop k :
  KeepsOrDrops k
    (modify (fun st => with_ctxmap (map_delete k (sessionContextMap st)) st) ;;
     modify (fun st => with_active (map_delete k (activeAgentSpans st)) st)).
Proof. intros st. right. split; reflexivity. Qed.

Ltac kd_step :=
  match goal with
  | |- KeepsOrDrops _ (bind (modify _) (fun _ => modify _)) => apply KD_drop
  | |- KeepsOrDrops _ (bind (try_catch _) _) => apply KD_bind_keeps; [|intro; keeps]
  | |- KeepsOrDrops _ (try_catch _) => apply KD_try_catch
  | |- KeepsOrDrops _ (bind _ _) => apply KD_bind; [keeps|intro]
  | |- KeepsOrDrops _ (match ?x with _ => _ end) => destruct x
  | |- KeepsOrDrops _ _ => progress cbv zeta
  end.

Lemma after_call (h : M jsv) st : after (call h st) = snd (h st).
Proof. unfold call. destruct (h st) as [[] st']; reflexivity. Qed.

Lemma keeps_model_usage d : Keeps (on_model_usage d).
Proof. unfold on_model_usage. keeps. Qed.

Lemma keeps_message cms ev ctx : Keeps (on_message_received cms ev ctx).
Proof. unfold on_message_received. keeps. Qed.

Lemma keeps_tool cts js ev ctx : Keeps (on_tool_result_persist cts js ev ctx).
Proof. unfold on_tool_result_persist. keeps. Qed.

Lemma keeps_command ev : Keeps (on_command ev).
Proof. unfold on_command. keeps. Qed.

Lemma keeps_gateway ev : Keeps (on_gateway_startup ev).
Proof. unfold on_gateway_startup. keeps. Qed.

Lemma kd_agent_end cc ev ctx : KeepsOrDrops (resolve ev ctx "sessionKey") (on_agent_end cc ev ctx).
Proof. unfold on_agent_end. repeat kd_step. Qed.

Lemma tracked_same st st' :
  sessionContextMap st' = sessionContextMap st ->
  activeAgentSpans st' = activeAgentSpans st ->
  agent_span_tracked st -> agent_span_tracked st'.
Proof. intros E1 E2 H. unfold agent_span_tracked. rewrite E1, E2. exact H. Qed.

Lemma jsv_eq_dec_b (x y : jsv) : {x = y} + {x <> y}.
Proof.
  destruct (jsv_eqb x y) eqn:E; [left; apply jsv_eqb_eq; exact E|right].
  intros ->. rewrite jsv_eqb_refl in E. discriminate.
Qed.

Lemma tracked_drop st st' k :
  sessionContextMap st' = map_delete k (sessionContextMap st) ->
  activeAgentSpans st' = map_delete k (activeAgentSpans st) ->
  agent_span_tracked st -> agent_span_tracked st'.
Proof.
  intros E1 E2 H k' c a H1 H2. rewrite E1 in H1. rewrite E2.
  destruct (jsv_eq_dec_b k' k) as [->|Hne].
  - rewrite lookup_map_delete_same in H1. discriminate.
  - rewrite lookup_map_delete_other in H1 by exact Hne.
    rewrite lookup_map_delete_other by exact Hne. eauto.
Qed.

Lemma tracked_set st st' k c a :
  lookup k (sessionContextMap st') = Some c -> agentSpan c = Some a ->
  lookup k (activeAgentSpans st') = Some a ->
  (forall k', k' <> k -> lookup k' (sessionContextMap st') = lookup k' (sessionContextMap st) /\
                         lookup k' (activeAgentSpans st') = lookup k' (activeAgentSpans st)) ->
  agent_span_tracked st -> agent_span_tracked st'.
Proof.
  intros Hc Ha Hk Ho H k' c' a' H1 H2.
  destruct (jsv_eq_dec_b k' k) as [->|Hne].
  - rewrite Hc in H1. injection H1 as <-. rewrite Ha in H2. injection H2 as <-. exact Hk.
  - destruct (Ho k' Hne) as [E1 E2]. rewrite E1 in H1. rewrite E2. eauto.
Qed.

Lemma lookup_delete_some {V} k k' (m : list (jsv * V)) v :
  lookup k (map_delete k' m) = Some v -> lookup k m = Some v.
Proof.
  destruct (jsv_eq_dec_b k k') as [->|Hne].
  - rewrite lookup_map_delete_same. discriminate.
  - rewrite lookup_map_delete_other by exact Hne. auto.
Qed.

Lemma sweep_map_sub t k c es : forall m,
  lookup k (sweep_map t es m) = Some c -> lookup k m = Some c.
Proof.
  induction es as [|[k' c'] es IH]; intros m H; cbn in H; [exact H|].
  apply IH in H. destruct (is_stale t c'); [|exact H].
  eapply lookup_delete_some. exact H.
Qed.

Lemma tracked_step E st e : agent_span_tracked st -> agent_span_tracked (step E st e).
Proof.
  intros H. destruct e as [ev ctx|ev ctx|ev ctx|ev ctx|ev|ev|d|ms|]; cbn [step hook];
    rewrite ?after_call.
  - destruct (keeps_message (env_checkMessageSecurity E) ev ctx st). eapply tracked_same; eauto.
  - set (k := resolve ev ctx "sessionKey").
    destruct (lookup k (sessionContextMap st)) as [c|] eqn:Ec; rewrite <- after_call.
    + rewrite (before_agent_start_existing ev ctx st c Ec). cbn [after].
      eapply tracked_set with (k := k); cbn [sessionContextMap activeAgentSpans];
        [apply lookup_map_set_same | reflexivity | apply lookup_map_set_same | | exact H].
      intros k' Hne. rewrite !lookup_map_set_other by exact Hne. auto.
    + rewrite (before_agent_start_new ev ctx st Ec). cbn [after].
      eapply tracked_set with (k := k); cbn [sessionContextMap activeAgentSpans];
        [apply lookup_map_set_same | reflexivity | apply lookup_map_set_same | | exact H].
      intros k' Hne. rewrite !lookup_map_set_other by exact Hne. auto.
  - destruct (keeps_tool (env_checkToolSecurity E) (env_json_stringify E) ev ctx st).
    eapply tracked_same; eauto.
  - destruct (kd_agent_end (env_captureContent E) ev ctx st) as [[E1 E2]|[E1 E2]].
    + eapply tracked_same; eauto.
    + eapply tracked_drop; eauto.
  - destruct (keeps_command ev st). eapply tracked_same; eauto.
  - destruct (keeps_gateway ev st). eapply tracked_same; eauto.
  - destruct (keeps_model_usage d st). eapply tracked_same; eauto.
  - eapply tracked_same; [reflexivity|reflexivity|exact H].
  - change (agent_span_tracked (step E st EvCleanup)). rewrite cleanup_spec.
    intros k c a H1 H2. cbn [sessionContextMap activeAgentSpans] in *.
    apply sweep_map_sub in H1. eauto.
Qed.

Lemma tracked_run E evs : forall st, agent_span_tracked st -> agent_span_tracked (run E evs st).
Proof.
  induction evs as [|e evs IH]; intros st H; [exact H|].
  cbn [run fold_left]. apply IH. apply tracked_step. exact H.
Qed.

Lemma tracked_reachable E evs : agent_span_tracked (run E evs init_state).
Proof. apply tracked_run. intros k c a H. discriminate H. Qed.


(** Extra X14: in every state reached by the hooks, each agent span held in a
    stored session context is also the session's entry in the active agent
    spans table. *)
Theorem agent_span_tracked_reachable : forall E evs k c a,
  lookup k (sessionContextMap (run E evs init_state)) = Some c -> agentSpan c = Some a ->
  lookup k (activeAgentSpans (run E evs init_state)) = Some a.
Proof. intros E evs. apply tracked_reachable. Qed.

Section Unique.
Context {V : Type}.

Lemma keys_replace k v (m : list (jsv * V)) : map fst (replace k v m) = map fst m.
Proof.
  induction m as [|[k0 v0] m IH]; cbn; [reflexivity|].
  destruct (jsv_eqb k k0); cbn; rewrite ?IH; reflexivity.
Qed.

Lemma lookup_none_notin k (m : list (jsv * V)) : lookup k m = None -> ~ In k (map fst m).
Proof.
  induction m as [|[k0 v0] m IH]; cbn; [auto|].
  destruct (jsv_eqb k k0) eqn:E; [discriminate|].
  intros H [->|Hin]; [rewrite jsv_eqb_refl in E; discriminate|exact (IH H Hin)].
Qed.

Lemma NoDup_snoc {A} (l : list A) x : NoDup l -> ~ In x l -> NoDup (l ++ [x]).
Proof.
  induction l as [|y l IH]; intros H Hx; cbn; [constructor; [auto|constructor]|].
  inversion H as [|? ? Hy Hl]; subst. constructor.
  - rewrite in_app_iff. intros [Hin|[<-|[]]]; [exact (Hy Hin)|apply Hx; left; reflexivity].
  - apply IH; auto. intro Hin. apply Hx. right. exact Hin.
Qed.

Lemma nodup_map_set k v (m : list (jsv * V)) :
  NoDup (map fst m) -> NoDup (map fst (map_set k v m)).
Proof.
  intros H. unfold map_set. destruct (lookup k m) eqn:E.
  - rewrite keys_replace. exact H.
  - rewrite map_app. cbn. apply NoDup_snoc; [exact H|apply lookup_none_notin; exact E].
Qed.

Lemma nodup_map_delete k (m : list (jsv * V)) :
  NoDup (map fst m) -> NoDup (map fst (map_delete k m)).
Proof.
  induction m as [|[k0 v0] m IH]; intros H; cbn; [constructor|].
  inversion H as [|? ? Hk Hm]; subst.
  destruct (negb (jsv_eqb k k0)); cbn; [constructor|]; auto.
  intro Hin. apply Hk. apply in_map_iff in Hin as [[k1 v1] [Ek Hin]].
  cbn in Ek. subst k1. apply in_map_delete in Hin. apply (in_map fst) in Hin. exact Hin.
Qed.

Lemma lookup_nodup_in k c c' (m : list (jsv * V)) :
  NoDup (map fst m) -> In (k, c') m -> lookup k m = Some c -> c' = c.
Proof.
  induction m as [|[k0 v0] m IH]; intros H Hin Hl; [destruct Hin|].
  inversion H as [|? ? Hk Hm]; subst. cbn in Hl.
  destruct Hin as [E|Hin].
  - injection E as -> ->. rewrite jsv_eqb_refl in Hl. injection Hl as ->. reflexivity.
  - destruct (jsv_eqb k k0) eqn:E.
    + apply jsv_eqb_eq in E. subst k0. exfalso. apply Hk. apply (in_map fst) in Hin. exact Hin.
    + apply IH; auto.
Qed.

End Unique.

Lemma nodup_sweep_map t es : forall m,
  NoDup (map fst m) -> NoDup (map fst (sweep_map t es m)).
Proof.
  induction es as [|[k c] es IH]; intros m H; cbn; [exact H|].
  apply IH. destruct (is_stale t c); [apply nodup_map_delete|]; exact H.
Qed.

Lemma sweep_map_keep t k es : forall m,
  (forall c', In (k, c') es -> is_stale t c' = false) ->
  lookup k (sweep_map t es m) = lookup k m.
Proof.
  induction es as [|[k' c'] es IH]; intros m H; [reflexivity|].
  change (lookup k (sweep_map t es (if is_stale t c' then map_delete k' m else m)) = lookup k m).
  rewrite IH by (intros c'' Hin; apply H; right; exact Hin).
  destruct (is_stale t c') eqn:Es; [|reflexivity].
  apply lookup_map_delete_other. intros ->.
  rewrite (H c' (or_introl eq_refl)) in Es. discriminate.
Qed.

Lemma unique_step E st e : keys_unique st -> keys_unique (step E st e).
Proof.
  unfold keys_unique. intros H.
  destruct e as [ev ctx|ev ctx|ev ctx|ev ctx|ev|ev|d|ms|]; cbn [step hook];
    rewrite ?after_call.
  - destruct (keeps_message (env_checkMessageSecurity E) ev ctx st) as [-> _]. exact H.
  - destruct (lookup (resolve ev ctx "sessionKey") (sessionContextMap st)) as [c|] eqn:Ec;
      rewrite <- after_call.
    + rewrite (before_agent_start_existing ev ctx st c Ec). cbn. apply nodup_map_set. exact H.
    + rewrite (before_agent_start_new ev ctx st Ec). cbn. apply nodup_map_set, nodup_map_set. exact H.
  - destruct (keeps_tool (env_checkToolSecurity E) (env_json_stringify E) ev ctx st) as [-> _].
    exact H.
  - destruct (kd_agent_end (env_captureContent E) ev ctx st) as [[-> _]|[-> _]];
      [exact H|apply nodup_map_delete; exact H].
  - destruct (keeps_command ev st) as [-> _]. exact H.
  - destruct (keeps_gateway ev st) as [-> _]. exact H.
  - destruct (keeps_model_usage d st) as [-> _]. exact H.
  - exact H.
  - change (NoDup (map fst (sessionContextMap (step E st EvCleanup))))%list.
    rewrite cleanup_spec. cbn. apply nodup_sweep_map. exact H.
Qed.

Lemma unique_reachable E evs : keys_unique (run E evs init_state).
Proof.
  unfold run.
  assert (H0 : forall st, keys_unique st -> keys_unique (fold_left (step E) evs st)).
  { induction evs as [|e evs IH]; intros st H; [exact H|]. cbn. apply IH, unique_step, H. }
  apply H0. constructor.
Qed.


(** Extra X15: in every state reached by the hooks, the periodic cleanup keeps
    exactly the stored contexts not older than five minutes, and leaves the
    active agent spans and the pending usage records unchanged. *)
Theorem cleanup_keeps_young : forall E evs k c,
  let st := run E evs init_state in
  let st' := step E st EvCleanup in
  (lookup k (sessionContextMap st') = Some c <->
   lookup k (sessionContextMap st) = Some c /\ clock st - startTime c <= maxAge) /\
  activeAgentSpans st' = activeAgentSpans st /\
  pendingUsageMap st' = pendingUsageMap st.
Proof.
  intros E evs k c st st'.
  pose proof (unique_reachable E evs) as U. fold st in U. unfold keys_unique in U.
  subst st'. rewrite cleanup_spec. cbn [sessionContextMap activeAgentSpans pendingUsageMap].
  split; [|split; reflexivity].
  split.
  - intros H. split; [exact (sweep_map_sub _ _ _ _ _ H)|].
    destruct (is_stale (clock st) c) eqn:Es.
    + rewrite (sweep_map_removes (clock st) k c (sessionContextMap st) (sessionContextMap st))
        in H; [discriminate|apply lookup_in; exact (sweep_map_sub _ _ _ _ _ H)|exact Es].
    + unfold is_stale in Es. rewrite Z.gtb_ltb in Es. apply Z.ltb_ge in Es. lia.
  - intros [H Hy]. rewrite sweep_map_keep; [exact H|].
    intros c' Hin. rewrite (lookup_nodup_in k c c' _ U Hin H).
    unfold is_stale. rewrite Z.gtb_ltb. apply Z.ltb_ge. lia.
Qed.

(** Extra X2: on a [model.usage] event the listener's counter additions sum,
    per counter, to input + cacheRead + cacheWrite prompt tokens (absent
    fields counting 0), the output tokens, the total, one request, and the
    cost when it is positive (0 otherwise). *)
Theorem model_usage_metrics d st :
  de_type d = "model.usage" ->
  exists ml,
    mlog (snd (on_model_usage d st)) = mlog st ++ ml /\
    metric_total "tokensPrompt" ml =
      or0 (u_input (usage_of d)) + or0 (u_cacheRead (usage_of d)) + or0 (u_cacheWrite (usage_of d)) /\
    metric_total "tokensCompletion" ml = or0 (u_output (usage_of d)) /\
    metric_total "tokensTotal" ml = or0 (u_total (usage_of d)) /\
    metric_total "llmRequests" ml = 1 /\
    metric_total "openclaw.llm.cost.usd" ml = Z.max 0 (or0 (de_costUsd d)).
Proof.
  intros Ht. destruct (model_usage_run d st Ht) as (l & ml & E & _ & H).
  exists ml. rewrite E. split; [reflexivity|exact H].
Qed.

Lemma model_usage_metrics_witness :
  de_type d_s1 = "model.usage" /\
  exists ml,
    mlog (snd (on_model_usage d_s1 init_state)) = mlog init_state ++ ml /\
    metric_total "tokensPrompt" ml = 10 /\
    metric_total "tokensCompletion" ml = 5 /\
    metric_total "tokensTotal" ml = 20 /\
    metric_total "llmRequests" ml = 1 /\
    metric_total "openclaw.llm.cost.usd" ml = 0.
Proof.
  split; [reflexivity|].
  destruct (model_usage_metrics d_s1 init_state eq_refl) as (ml & H1 & H2 & H3 & H4 & H5 & H6).
  exists ml. split; [exact H1|]. rewrite H2, H3, H4, H5, H6. repeat split.
Defined.

(** Extra X3: a [model.usage] event for a session with no active agent span
    touches no span and leaves both session tables as they are; the usage
    record it builds is what the next [getPendingUsage] for that session
    returns, and other sessions' pending records are unchanged. *)
Theorem model_usage_parks d st :
  de_type d = "model.usage" ->
  lookup (usage_key d) (activeAgentSpans st) = None ->
  let st' := snd (on_model_usage d st) in
  tlog st' = tlog st /\
  sessionContextMap st' = sessionContextMap st /\
  activeAgentSpans st' = activeAgentSpans st /\
  fst (getPendingUsage (usage_key d) st') = Ok (Some (usage_record d)) /\
  (forall k', k' <> usage_key d -> lookup k' (pendingUsageMap st') = lookup k' (pendingUsageMap st)).
Proof.
  intros Ht Hn st'. subst st'.
  destruct (model_usage_run d st Ht) as (l & ml & E & Hl & _).
  rewrite Hn in E, Hl. subst l. rewrite E. cbn [snd tlog sessionContextMap activeAgentSpans pendingUsageMap].
  rewrite getPendingUsage_spec. cbn [fst pendingUsageMap].
  rewrite lookup_map_set_same, app_nil_r.
  repeat split; try reflexivity.
  intros k' Hk. apply lookup_map_set_other. exact Hk.
Qed.

Lemma model_usage_parks_witness :
  let st' := snd (on_model_usage d_s1 init_state) in
  fst (getPendingUsage (JStr "s1") st') = Ok (Some (usage_record d_s1)) /\ tlog st' = [].
Proof.
  destruct (model_usage_parks d_s1 init_state eq_refl eq_refl) as (H1 & _ & _ & H4 & _).
  split; [exact H4|exact H1].
Defined.

(** Extra X4: in any state reached by the hooks, a [model.usage] event for a
    session whose stored context has an agent span makes only attribute and
    status writes, all on that agent span, and leaves no pending record for
    the session; other sessions' pending records and both session tables are
    unchanged. *)
Theorem model_usage_live_turn E evs d c a :
  let st := run E evs init_state in
  de_type d = "model.usage" ->
  lookup (usage_key d) (sessionContextMap st) = Some c ->
  agentSpan c = Some a ->
  let st' := snd (on_model_usage d st) in
  (exists l, tlog st' = tlog st ++ l /\ Forall (quiet_on a) l) /\
  lookup (usage_key d) (pendingUsageMap st') = None /\
  (forall k', k' <> usage_key d -> lookup k' (pendingUsageMap st') = lookup k' (pendingUsageMap st)) /\
  sessionContextMap st' = sessionContextMap st /\
  activeAgentSpans st' = activeAgentSpans st.
Proof.
  intros st Ht Hc Ha st'. subst st'.
  pose proof (tracked_reachable E evs _ _ _ Hc Ha) as Hact. fold st in Hact.
  destruct (model_usage_run d st Ht) as (l & ml & Ee & Hl & _).
  rewrite Hact in Ee, Hl. rewrite Ee.
  cbn [snd tlog sessionContextMap activeAgentSpans pendingUsageMap].
  split; [exists l; split; [reflexivity|exact Hl]|].
  split; [apply lookup_map_delete_same|].
  split; [|split; reflexivity].
  intros k' Hk. rewrite lookup_map_delete_other, lookup_map_set_other by exact Hk. reflexivity.
Qed.


Lemma load_all_attempted imps st :
  sdkLoadAttempted st = true -> load_all imps st = st.
Proof.
  induction imps as [|imp imps IH]; intros H; [reflexivity|].
  cbn [load_all fold_left]. unfold loadSdk at 2. rewrite H. apply IH. exact H.
Qed.

(** Extra X16: however many times [loadSdk] is called, the SDK is imported
    once, and [onDiagnosticEvent] is what the first import gave (null if it
    failed). *)
Theorem sdk_loaded_once : forall imp imps,
  let st := load_all (imp :: imps) sdk_init in
  imports st = 1%nat /\
  onDiagnosticEvent st = match imp with ImportFails => DVal JNull | ImportModule v => v end.
Proof.
  intros imp imps st. subst st. unfold load_all. cbn [fold_left].
  fold (load_all imps (loadSdk imp sdk_init)).
  rewrite load_all_attempted by (destruct imp; reflexivity).
  destruct imp; split; reflexivity.
Qed.

(** Extra X17: when the SDK module's [onDiagnosticEvent] export is a falsy
    value other than null (such as undefined), [checkDiagnosticsSupport] and
    [hasDiagnosticsSupport] report support while [registerDiagnosticsListener]
    subscribes nothing. *)
Theorem sdk_support_mismatch : forall imp st v,
  onDiagnosticEvent (loadSdk imp st) = DVal v ->
  v <> JNull -> truthy v = false ->
  fst (checkDiagnosticsSupport imp st) = true /\
  hasDiagnosticsSupport (snd (registerDiagnosticsListener imp st)) = true /\
  fst (registerDiagnosticsListener imp st) = RegNoop.
Proof.
  intros imp st v Hv Hn Ht. unfold checkDiagnosticsSupport, registerDiagnosticsListener,
    hasDiagnosticsSupport. cbn [fst snd dval_truthy].
  rewrite Hv. cbn [dval_truthy]. rewrite Ht. cbn [negb fst snd].
  rewrite Hv. destruct v; try contradiction; repeat split.
Qed.

Lemma sdk_support_mismatch_witness :
  fst (checkDiagnosticsSupport (ImportModule (DVal JUndef)) sdk_init) = true /\
  fst (registerDiagnosticsListener (ImportModule (DVal JUndef)) sdk_init) = RegNoop.
Proof.
  destruct (sdk_support_mismatch (ImportModule (DVal JUndef)) sdk_init JUndef
              eq_refl ltac:(discriminate) eq_refl) as (H1 & _ & H3).
  split; assumption.
Defined.


Lemma message_received_closes_witness :
  exists st', call (on_message_received sec_ok ev_hi (obj [])) init_state = Normal JUndef st' /\
              next_span st' = 1%nat.
Proof.
  destruct (message_received_closes sec_ok ev_hi (obj []) init_state
              ltac:(intros s _ _; discriminate)) as (attrs & L & ml & E & _).
  eexists. split; [exact E | reflexivity].
Defined.

Lemma message_received_security_throws_witness :
  exists attrs,
    call (on_message_received sec_throw ev_hi (obj [])) init_state =
      Normal JUndef (mkState [] [] [] 1
        [StartSpan 0 "openclaw.message.received" SERVER attrs ctx_active] [] 0).
Proof.
  exact (message_received_security_throws sec_throw ev_hi (obj []) init_state "hi"
           eq_refl ltac:(discriminate) eq_refl).
Defined.







Lemma agent_span_tracked_reachable_witness :
  lookup (JStr "s1") (activeAgentSpans (run env0 [EvBeforeAgentStart s1_start (obj [])] init_state)) = Some 1%nat.
Proof.
  exact (agent_span_tracked_reachable env0 [EvBeforeAgentStart s1_start (obj [])] (JStr "s1") c4_ctx 1%nat
           eq_refl eq_refl).
Defined.

Lemma model_usage_live_turn_witness :
  lookup (JStr "s1") (pendingUsageMap (snd (on_model_usage d_s1 c4_state))) = None.
Proof.
  exact (proj1 (proj2 (model_usage_live_turn env0 [EvBeforeAgentStart s1_start (obj [])] d_s1 c4_ctx 1%nat
           eq_refl eq_refl eq_refl))).
Defined.


(** ** Appending to the trace log *)

Lemma G_ret {A} (x : A) : Grows (ret x).
Proof. intro st. split; [exists []; rewrite app_nil_r; reflexivity | apply le_n]. Qed.

Lemma G_throw {A} e : Grows (@throw A e).
Proof. intro st. split; [exists []; rewrite app_nil_r; reflexivity | apply le_n]. Qed.

Lemma G_gets {A} (f : state -> A) : Grows (gets f).
Proof. intro st. split; [exists []; rewrite app_nil_r; reflexivity | apply le_n]. Qed.

Lemma G_modify f :
  (forall st, (exists l, tlog (f st) = tlog st ++ l) /\ (next_span st <= next_span (f st))%nat) ->
  Grows (modify f).
Proof. intros H st. apply H. Qed.

Lemma G_startSpan nm kd at' p : Grows (startSpan nm kd at' p).
Proof. intro st. split; [eexists; reflexivity | cbn; lia]. Qed.

Lemma G_bind {A B} (m : M A) (k : A -> M B) :
  Grows m -> (forall x, Grows (k x)) -> Grows (bind m k).
Proof.
  intros Hm Hk st. unfold bind. destruct (Hm st) as [[l1 E1] N1].
  destruct (m st) as [[x|e] st']; cbn [snd] in *.
  - destruct (Hk x st') as [[l2 E2] N2]. split; [|lia].
    exists (l1 ++ l2). rewrite E2, E1, app_assoc. reflexivity.
  - split; [exists l1; exact E1 | exact N1].
Qed.

Lemma G_try_catch (m : M unit) : Grows m -> Grows (try_catch m).
Proof.
  intros Hm st. unfold try_catch. destruct (Hm st) as [E1 N1].
  destruct (m st) as [[] st']; cbn [snd] in *; split; assumption.
Qed.

Ltac grows_modify :=
  apply G_modify; intros []; cbn;
  split; [first [exists []; rewrite app_nil_r; reflexivity | eexists; reflexivity] | lia].

Lemma G_apply_ops n ops : Grows (apply_ops n ops).
Proof.
  induction ops as [|[k v|c m] ops IH]; cbn [apply_ops]; [apply G_ret| |];
    (apply G_bind; [grows_modify|intros; exact IH]).
Qed.

Lemma G_log_metrics ms : Grows (log_metrics ms).
Proof.
  induction ms as [|c ms IH]; cbn [log_metrics]; [apply G_ret|].
  apply G_bind; [grows_modify|intros; exact IH].
Qed.

Ltac grows_step :=
  match goal with
  | |- Grows (bind _ _) => apply G_bind; [|intro]
  | |- Grows (try_catch _) => apply G_try_catch
  | |- Grows (ret _) => apply G_ret
  | |- Grows (throw _) => apply G_throw
  | |- Grows (gets _) => apply G_gets
  | |- Grows (modify _) => grows_modify
  | |- Grows (startSpan _ _ _ _) => apply G_startSpan
  | |- Grows (apply_ops _ _) => apply G_apply_ops
  | |- Grows (log_metrics _) => apply G_log_metrics
  | |- Grows (if ?b then _ else _) => destruct b
  | |- Grows (match ?x with _ => _ end) => destruct x
  | |- Grows _ =>
      progress (unfold when, when_some, when_truthy, setAttribute, setStatus, endSpan,
                       counterAdd, histRecord, now, getPendingUsage, enrichSpanWithUsage,
                       run_security, filter_text_parts, iterate, js_filter, message_text,
                       last_text, capture, length_pos, turn_usage, end_agent_span, end_root_span)
  | |- Grows _ => progress cbv zeta
  end.
Ltac grows := repeat grows_step.

Lemma grows_model_usage d : Grows (on_model_usage d).
Proof. unfold on_model_usage. grows. Qed.

Lemma grows_message cms ev ctx : Grows (on_message_received cms ev ctx).
Proof. unfold on_message_received. grows. Qed.

Lemma grows_tool cts js ev ctx : Grows (on_tool_result_persist cts js ev ctx).
Proof. unfold on_tool_result_persist. grows. Qed.

Lemma grows_command ev : Grows (on_command ev).
Proof. unfold on_command. grows. Qed.

Lemma grows_gateway ev : Grows (on_gateway_startup ev).
Proof. unfold on_gateway_startup. grows. Qed.

Lemma grows_agent_end cc ev ctx : Grows (on_agent_end cc ev ctx).
Proof. unfold on_agent_end. grows. Qed.

Lemma step_grows E st e :
  (exists l, tlog (step E st e) = tlog st ++ l) /\ (next_span st <= next_span (step E st e))%nat.
Proof.
  destruct e as [ev ctx|ev ctx|ev ctx|ev ctx|ev|ev|d|ms|]; cbn [step hook].
  - rewrite after_call. apply grows_message.
  - destruct (lookup (resolve ev ctx "sessionKey") (sessionContextMap st)) as [c|] eqn:Ec.
    + rewrite (before_agent_start_existing ev ctx st c Ec). cbn. split; [eexists; reflexivity | lia].
    + rewrite (before_agent_start_new ev ctx st Ec). cbn. split; [eexists; reflexivity | lia].
  - rewrite after_call. apply grows_tool.
  - rewrite after_call. apply grows_agent_end.
  - rewrite after_call. apply grows_command.
  - rewrite after_call. apply grows_gateway.
  - apply grows_model_usage.
  - cbn. split; [exists []; rewrite app_nil_r; reflexivity | apply le_n].
  - change (snd (cleanup_stale st)) with (step E st EvCleanup). rewrite cleanup_spec. cbn.
    split; [eexists; reflexivity | apply le_n].
Qed.

Lemma next_span_run E evs : forall st, (next_span st <= next_span (run E evs st))%nat.
Proof.
  induction evs as [|e evs IH]; intro st; [apply le_n|].
  cbn [run fold_left]. specialize (IH (step E st e)).
  destruct (step_grows E st e) as [_ N]. unfold run in IH. lia.
Qed.

(** ** Stored root spans *)

Lemma roots_from st st' :
  (exists l, tlog st' = tlog st ++ l) ->
  (forall k c, lookup k (sessionContextMap st') = Some c ->
     (exists k0 c0, lookup k0 (sessionContextMap st) = Some c0 /\
                    rootSpan c0 = rootSpan c /\ rootContext c0 = rootContext c) \/
     (rootContext c = Some (rootSpan c) /\
      exists attrs, In (StartSpan (rootSpan c) "openclaw.request" SERVER attrs ctx_active) (tlog st'))) ->
  roots_logged st -> roots_logged st'.
Proof.
  intros [l E] Hc H k c Hk. destruct (Hc k c Hk) as [(k0 & c0 & H0 & R1 & R2)|R]; [|exact R].
  destruct (H k0 c0 H0) as [R3 [attrs Hin]]. split; [congruence|].
  exists attrs. rewrite E, <- R1. apply in_or_app. left. exact Hin.
Qed.

Lemma roots_step E st e : roots_logged st -> roots_logged (step E st e).
Proof.
  intros H. apply (roots_from st); [apply step_grows| |exact H].
  intros k c Hc.
  destruct e as [ev ctx|ev ctx|ev ctx|ev ctx|ev|ev|d|ms|]; cbn [step hook] in Hc |- *.
  - rewrite after_call in Hc.
    destruct (keeps_message (env_checkMessageSecurity E) ev ctx st) as [E1 _].
    rewrite E1 in Hc. left. exists k, c. auto.
  - set (k0 := resolve ev ctx "sessionKey") in *.
    destruct (lookup k0 (sessionContextMap st)) as [c0|] eqn:Ec.
    + rewrite (before_agent_start_existing ev ctx st c0 Ec) in Hc. cbn [after sessionContextMap] in Hc.
      left. destruct (jsv_eq_dec_b k k0) as [->|Hne].
      * rewrite lookup_map_set_same in Hc. injection Hc as <-. exists k0, c0. auto.
      * rewrite lookup_map_set_other in Hc by exact Hne. exists k, c. auto.
    + rewrite (before_agent_start_new ev ctx st Ec) in Hc |- *. cbn [after sessionContextMap tlog] in Hc |- *.
      destruct (jsv_eq_dec_b k k0) as [->|Hne].
      * rewrite lookup_map_set_same in Hc. injection Hc as <-. right. split; [reflexivity|].
        exists (root_attrs ev ctx). apply in_or_app. right. left. reflexivity.
      * rewrite !lookup_map_set_other in Hc by exact Hne. left. exists k, c. auto.
  - rewrite after_call in Hc.
    destruct (keeps_tool (env_checkToolSecurity E) (env_json_stringify E) ev ctx st) as [E1 _].
    rewrite E1 in Hc. left. exists k, c. auto.
  - rewrite after_call in Hc. left. exists k, c.
    destruct (kd_agent_end (env_captureContent E) ev ctx st) as [[E1 _]|[E1 _]]; rewrite E1 in Hc.
    + auto.
    + split; [eapply lookup_delete_some; exact Hc | auto].
  - rewrite after_call in Hc. destruct (keeps_command ev st) as [E1 _].
    rewrite E1 in Hc. left. exists k, c. auto.
  - rewrite after_call in Hc. destruct (keeps_gateway ev st) as [E1 _].
    rewrite E1 in Hc. left. exists k, c. auto.
  - destruct (keeps_model_usage d st) as [E1 _]. rewrite E1 in Hc. left. exists k, c. auto.
  - cbn in Hc. left. exists k, c. auto.
  - change (lookup k (sessionContextMap (snd (cleanup_stale st))) = Some c) in Hc.
    change (snd (cleanup_stale st)) with (step E st EvCleanup) in Hc.
    rewrite cleanup_spec in Hc. cbn [sessionContextMap] in Hc.
    apply sweep_map_sub in Hc. left. exists k, c. auto.
Qed.

Lemma roots_run E evs : forall st, roots_logged st -> roots_logged (run E evs st).
Proof.
  induction evs as [|e evs IH]; intros st H; [exact H|].
  cbn [run fold_left]. apply IH. apply roots_step. exact H.
Qed.

Lemma roots_reachable E evs : roots_logged (run E evs init_state).
Proof. apply roots_run. intros k c H. discriminate H. Qed.

(** The stored context of session [k] keeps its root across events that
    neither end its turn nor sweep the store. *)
Lemma session_kept E k st e c :
  keeps_session k e = true -> lookup k (sessionContextMap st) = Some c ->
  exists c', lookup k (sessionContextMap (step E st e)) = Some c' /\
             rootSpan c' = rootSpan c /\ rootContext c' = rootContext c.
Proof.
  intros Hk Hc.
  destruct e as [ev ctx|ev ctx|ev ctx|ev ctx|ev|ev|d|ms|]; cbn [step hook keeps_session] in *.
  - rewrite after_call. destruct (keeps_message (env_checkMessageSecurity E) ev ctx st) as [E1 _].
    rewrite E1. eauto.
  - set (k0 := resolve ev ctx "sessionKey") in *.
    destruct (lookup k0 (sessionContextMap st)) as [c0|] eqn:Ec.
    + rewrite (before_agent_start_existing ev ctx st c0 Ec). cbn [after sessionContextMap].
      destruct (jsv_eq_dec_b k k0) as [->|Hne].
      * rewrite lookup_map_set_same. rewrite Hc in Ec. injection Ec as <-. eexists. eauto.
      * rewrite lookup_map_set_other by exact Hne. eauto.
    + rewrite (before_agent_start_new ev ctx st Ec). cbn [after sessionContextMap].
      assert (Hne : k <> k0) by congruence.
      rewrite !lookup_map_set_other by exact Hne. eauto.
  - rewrite after_call.
    destruct (keeps_tool (env_checkToolSecurity E) (env_json_stringify E) ev ctx st) as [E1 _].
    rewrite E1. eauto.
  - rewrite after_call.
    assert (Hne : k <> resolve ev ctx "sessionKey").
    { intros ->. rewrite jsv_eqb_refl in Hk. discriminate. }
    destruct (kd_agent_end (env_captureContent E) ev ctx st) as [[E1 _]|[E1 _]]; rewrite E1.
    + eauto.
    + rewrite lookup_map_delete_other by exact Hne. eauto.
  - rewrite after_call. destruct (keeps_command ev st) as [E1 _]. rewrite E1. eauto.
  - rewrite after_call. destruct (keeps_gateway ev st) as [E1 _]. rewrite E1. eauto.
  - destruct (keeps_model_usage d st) as [E1 _]. rewrite E1. eauto.
  - cbn. eauto.
  - discriminate.
Qed.

Lemma session_kept_run E k evs : forall st c,
  forallb (keeps_session k) evs = true -> lookup k (sessionContextMap st) = Some c ->
  exists c', lookup k (sessionContextMap (run E evs st)) = Some c' /\
             rootSpan c' = rootSpan c /\ rootContext c' = rootContext c.
Proof.
  induction evs as [|e evs IH]; intros st c Hf Hc; [eauto|].
  cbn [forallb] in Hf. apply andb_prop in Hf as [He Hf].
  destruct (session_kept E k st e c He Hc) as (c1 & H1 & R1 & C1).
  destruct (IH (step E st e) c1 Hf H1) as (c2 & H2 & R2 & C2).
  exists c2. cbn [run fold_left]. unfold run in H2. split; [exact H2|]. split; congruence.
Qed.

(** Claim C5 (as amended): in any reachable state, a turn-start for
    session [k] followed by any events other than a turn-end for [k] or a
    reaper sweep, and then a second turn-start for [k], reuses one root
    span: the first turn-start leaves [k] stored with root span [r]
    (started as the "openclaw.request" server span) and agent-turn span
    [a1], a child of [r]; the second turn-start starts only an agent-turn
    span [a2], distinct from [a1] and also a child of [r]; the stored
    context then keeps root [r] and tracks [a2]. *)
Theorem turns_share_root : forall E evs0 ev0 ctx0 evs ev1 ctx1,
  forallb (keeps_session (resolve ev0 ctx0 "sessionKey")) evs = true ->
  resolve ev1 ctx1 "sessionKey" = resolve ev0 ctx0 "sessionKey" ->
  let st1 := run E (evs0 ++ [EvBeforeAgentStart ev0 ctx0]) init_state in
  let st2 := run E evs st1 in
  let st3 := step E st2 (EvBeforeAgentStart ev1 ctx1) in
  exists r a1 a2 c1 c3,
    (exists attrs, In (StartSpan r "openclaw.request" SERVER attrs ctx_active) (tlog st1)) /\
    (exists l, tlog st1 = l ++ [StartSpan a1 "openclaw.agent.turn" INTERNAL (agent_attrs ev0 ctx0) (Some r)]) /\
    lookup (resolve ev0 ctx0 "sessionKey") (sessionContextMap st1) = Some c1 /\
    rootSpan c1 = r /\ agentSpan c1 = Some a1 /\
    tlog st3 = tlog st2 ++ [StartSpan a2 "openclaw.agent.turn" INTERNAL (agent_attrs ev1 ctx1) (Some r)] /\
    a1 <> a2 /\
    lookup (resolve ev0 ctx0 "sessionKey") (sessionContextMap st3) = Some c3 /\
    rootSpan c3 = r /\ agentSpan c3 = Some a2.
Proof.
  intros E evs0 ev0 ctx0 evs ev1 ctx1 Hevs Hk1 st1 st2 st3.
  set (k := resolve ev0 ctx0 "sessionKey") in *.
  set (st := run E evs0 init_state).
  assert (Est1 : st1 = after (call (on_before_agent_start ev0 ctx0) st))
    by (unfold st1, st, run; rewrite fold_left_app; reflexivity).
  pose proof (roots_reachable E evs0) as Hst. fold st in Hst.
  assert (T1 : exists r a1 c1,
    lookup k (sessionContextMap st1) = Some c1 /\ rootSpan c1 = r /\ rootContext c1 = Some r /\
    agentSpan c1 = Some a1 /\ next_span st1 = S a1 /\
    (exists attrs, In (StartSpan r "openclaw.request" SERVER attrs ctx_active) (tlog st1)) /\
    (exists l, tlog st1 = l ++ [StartSpan a1 "openclaw.agent.turn" INTERNAL (agent_attrs ev0 ctx0) (Some r)])).
  { rewrite Est1. destruct (lookup k (sessionContextMap st)) as [c0|] eqn:Ec.
    - rewrite (before_agent_start_existing ev0 ctx0 st c0 Ec). cbn [after sessionContextMap tlog next_span].
      destruct (Hst k c0 Ec) as [Rc [attrs Hin]].
      exists (rootSpan c0), (next_span st),
        (mkSTC (rootSpan c0) (rootContext c0) (Some (next_span st)) (Some (Some (next_span st))) (startTime c0)).
      cbn [rootSpan rootContext agentSpan].
      split; [apply lookup_map_set_same|]. split; [reflexivity|]. split; [exact Rc|].
      split; [reflexivity|]. split; [reflexivity|].
      split; [exists attrs; apply in_or_app; left; exact Hin|].
      exists (tlog st). rewrite Rc. reflexivity.
    - rewrite (before_agent_start_new ev0 ctx0 st Ec). cbn [after sessionContextMap tlog next_span].
      exists (next_span st), (S (next_span st)),
        (mkSTC (next_span st) (Some (next_span st)) (Some (S (next_span st)))
               (Some (Some (S (next_span st)))) (clock st)).
      cbn [rootSpan rootContext agentSpan].
      split; [apply lookup_map_set_same|]. split; [reflexivity|]. split; [reflexivity|].
      split; [reflexivity|]. split; [reflexivity|].
      split; [exists (root_attrs ev0 ctx0); apply in_or_app; right; left; reflexivity|].
      exists (tlog st ++ [StartSpan (next_span st) "openclaw.request" SERVER (root_attrs ev0 ctx0) ctx_active]).
      rewrite <- app_assoc. reflexivity. }
  destruct T1 as (r & a1 & c1 & L1 & R1 & RC1 & A1 & N1 & Hroot & Hlast).
  destruct (session_kept_run E k evs st1 c1 Hevs L1) as (c2 & L2 & R2 & RC2).
  pose proof (next_span_run E evs st1) as N2.
  assert (Hc2 : lookup (resolve ev1 ctx1 "sessionKey") (sessionContextMap st2) = Some c2)
    by (rewrite Hk1; exact L2).
  unfold st3. cbn [step hook].
  rewrite (before_agent_start_existing ev1 ctx1 st2 c2 Hc2). cbn [after tlog sessionContextMap].
  exists r, a1, (next_span st2), c1,
    (mkSTC (rootSpan c2) (rootContext c2) (Some (next_span st2)) (Some (Some (next_span st2)))
           (startTime c2)).
  split; [exact Hroot|]. split; [exact Hlast|]. split; [exact L1|]. split; [exact R1|].
  split; [exact A1|]. split; [rewrite RC2, RC1; reflexivity|].
  split; [fold st2 in N2; lia|].
  split; [rewrite Hk1; apply lookup_map_set_same|].
  split; [cbn [rootSpan]; congruence|]. reflexivity.
Qed.

Lemma turns_share_root_witness :
  forallb (keeps_session (resolve s1_start (obj []) "sessionKey"))
    (tool_events s1_tools ++ [EvTick 1000; EvAgentEnd (obj [("sessionKey", JStr "s2")]) (obj [])]) = true /\
  resolve s1_start (key_ctx "s1") "sessionKey" = resolve s1_start (obj []) "sessionKey" /\
  let st1 := run env0 ([] ++ [EvBeforeAgentStart s1_start (obj [])]) init_state in
  let st2 := run env0 (tool_events s1_tools ++
               [EvTick 1000; EvAgentEnd (obj [("sessionKey", JStr "s2")]) (obj [])]) st1 in
  let st3 := step env0 st2 (EvBeforeAgentStart s1_start (key_ctx "s1")) in
  exists r a1 a2 c1 c3,
    (exists attrs, In (StartSpan r "openclaw.request" SERVER attrs ctx_active) (tlog st1)) /\
    (exists l, tlog st1 = l ++ [StartSpan a1 "openclaw.agent.turn" INTERNAL
                                  (agent_attrs s1_start (obj [])) (Some r)]) /\
    lookup (resolve s1_start (obj []) "sessionKey") (sessionContextMap st1) = Some c1 /\
    rootSpan c1 = r /\ agentSpan c1 = Some a1 /\
    tlog st3 = tlog st2 ++ [StartSpan a2 "openclaw.agent.turn" INTERNAL
                              (agent_attrs s1_start (key_ctx "s1")) (Some r)] /\
    a1 <> a2 /\
    lookup (resolve s1_start (obj []) "sessionKey") (sessionContextMap st3) = Some c3 /\
    rootSpan c3 = r /\ agentSpan c3 = Some a2.
Proof.
  assert (H1 : forallb (keeps_session (resolve s1_start (obj []) "sessionKey"))
    (tool_events s1_tools ++ [EvTick 1000; EvAgentEnd (obj [("sessionKey", JStr "s2")]) (obj [])]) = true)
    by reflexivity.
  assert (H2 : resolve s1_start (key_ctx "s1") "sessionKey" = resolve s1_start (obj []) "sessionKey")
    by reflexivity.
  split; [exact H1|]. split; [exact H2|].
  exact (turns_share_root env0 [] s1_start (obj [])
           (tool_events s1_tools ++ [EvTick 1000; EvAgentEnd (obj [("sessionKey", JStr "s2")]) (obj [])])
           s1_start (key_ctx "s1") H1 H2).
Defined.

(** A second turn-start after the first turn's turn-end opens a new root
    span (id 2) for the same session key. *)
Lemma turns_share_root_counterexample :
  let st := run env0 [EvBeforeAgentStart s1_start (obj []);
                      EvAgentEnd (s1_end s1_transcript) (obj []);
                      EvBeforeAgentStart s1_start (obj [])] init_state in
  count_starts "openclaw.request" (tlog st) = 2%nat /\
  option_map rootSpan (lookup (JStr "s1") (sessionContextMap st)) = Some 2%nat.
Proof. vm_compute. split; reflexivity. Qed.
